(** * An in-memory message broker: [flask_rest_api.py]

    The program keeps one global [deque] of lxml elements. Three request
    handlers work on it: [sendMessage] (parse, validate against an XML
    schema, reject duplicates, append), [getMessage] (pop the head) and
    [findMessages] (validate a JSON filter, collect the matching messages
    under a fresh [Messages] element).

    The development follows the source top-down. The three library entry
    points whose algorithms are not part of the repository are taken as
    section variables: the XML parser [etree.fromstring], libxml2's lexical
    check of [xs:dateTime], and [dateutil.parser.parse]. Everything the source
    file itself spells out is a definition: the XML schema and the JSON schema
    are data, interpreted by validators for the keywords they use; the queue,
    the duplicate scan, the XPath lookup and the filter loop are functions on
    an explicit program state. *)

From Stdlib Require Import ZArith String Ascii List Bool Lia.
From stdpp Require Import base gmap strings list pretty.
Import ListNotations.

#[local] Set Warnings "-register-all".
#[local] Open Scope string_scope.

(** ** Characters that cannot be written inside a string literal *)

Definition dquote : string := String (ascii_of_nat 34) EmptyString.
Definition newline : string := String (ascii_of_nat 10) EmptyString.

(** ** lxml.etree *)

Module etree.

(** An element as lxml shows it: [tag], [attrib], [text], the child
    elements and [tail]. Names are unqualified (the schema of this program
    has no target namespace); comments and processing instructions are not
    represented. *)
Inductive element :=
  Element (tag : string) (attrib : list (string * string))
          (text : option string) (children : list element)
          (tail : option string).

Definition tag (e : element) : string :=
  match e with Element t _ _ _ _ => t end.
Definition attrib (e : element) : list (string * string) :=
  match e with Element _ a _ _ _ => a end.
Definition text (e : element) : option string :=
  match e with Element _ _ x _ _ => x end.
Definition children (e : element) : list element :=
  match e with Element _ _ _ c _ => c end.
Definition tail (e : element) : option string :=
  match e with Element _ _ _ _ x => x end.

(** [len(element)] is the number of child elements. *)
Definition len (e : element) : nat := length (children e).

(** Character escaping of the serializer. *)
Fixpoint escape (in_attribute : bool) (s : string) : string :=
  match s with
  | EmptyString => EmptyString
  | String c rest =>
      let r := escape in_attribute rest in
      if Ascii.eqb c "&" then "&amp;" +:+ r
      else if Ascii.eqb c "<" then "&lt;" +:+ r
      else if Ascii.eqb c ">" then "&gt;" +:+ r
      else if in_attribute && Ascii.eqb c (ascii_of_nat 34) then "&quot;" +:+ r
      else String c r
  end.

Definition from_option (o : option string) : string :=
  match o with Some s => s | None => "" end.

Fixpoint write_attrib (a : list (string * string)) : string :=
  match a with
  | [] => ""
  | (k, v) :: rest =>
      " " +:+ k +:+ "=" +:+ dquote +:+ escape true v +:+ dquote +:+ write_attrib rest
  end.

(** [etree.tostring(element)]: the element with its subtree, followed by
    its tail. An element without text and without children is written as
    an empty-element tag. *)
Fixpoint tostring (e : element) : string :=
  match e with
  | Element t a x cs tl =>
      let inner :=
        escape false (from_option x)
        +:+ (fix write_children (l : list element) : string :=
               match l with
               | [] => ""
               | c :: l' => tostring c +:+ write_children l'
               end) cs in
      (if String.eqb inner ""
       then "<" +:+ t +:+ write_attrib a +:+ "/>"
       else "<" +:+ t +:+ write_attrib a +:+ ">" +:+ inner +:+ "</" +:+ t +:+ ">")
      +:+ escape false (from_option tl)
  end.

(** [etree.tostring(element, doctype=...)]: the doctype string, a line
    break, then the element. *)
Definition tostring_doctype (e : element) (doctype : string) : string :=
  doctype +:+ newline +:+ tostring e.

(** The elements of a tree in document order: the node-set of the XPath
    step [descendant-or-self::*] taken at the root element. *)
Fixpoint descendants_or_self (e : element) : list element :=
  e :: (fix walk (l : list element) : list element :=
          match l with
          | [] => []
          | c :: l' => (descendants_or_self c ++ walk l')%list
          end) (children e).

(** [element.xpath("//*[local-name() = $name]", name=name)]. The path is
    absolute: whatever element it is called on, the node-set is taken from
    the root of the document that element currently belongs to, here
    [root]. *)
Definition xpath_local_name (root : element) (name : string) : list element :=
  filter (fun e => tag e = name) (descendants_or_self root).

End etree.

Import etree.

(** ** XML Schema, as far as the schema of [validate_xml] uses it

    An element declaration has a name and a type; a type is one of the two
    built-in simple types of the schema or an anonymous complex type whose
    content model is a sequence of element declarations, each to occur
    exactly once ([minOccurs] and [maxOccurs] are left at their default). *)

Inductive xs_type :=
  | xs_string
  | xs_dateTime
  | xs_complexType (sequence : list xs_element)
with xs_element :=
  | xs_element_decl (name : string) (type : xs_type).

Definition decl_name (decl : xs_element) : string :=
  match decl with xs_element_decl name _ => name end.

(** White space of XML: space, tab, line feed, carriage return. *)
Definition is_space (c : ascii) : bool :=
  Ascii.eqb c " " || Ascii.eqb c (ascii_of_nat 9)
  || Ascii.eqb c (ascii_of_nat 10) || Ascii.eqb c (ascii_of_nat 13).

Fixpoint all_space (s : string) : bool :=
  match s with
  | EmptyString => true
  | String c rest => is_space c && all_space rest
  end.

Definition is_blank (o : option string) : bool := all_space (from_option o).

Section XMLSchema.

(** libxml2's check that a string is a lexical form of [xs:dateTime]. *)
Variable dateTime_lexical : string -> bool.

(** An element is valid against a declaration when the names agree, it
    carries no attribute (none is declared), and its content fits the type:
    character data only for a simple type, and for a sequence exactly the
    declared children in the declared order with nothing but white space
    between them. *)
Fixpoint validate_element (decl : xs_element) (e : element) : bool :=
  match decl with
  | xs_element_decl name type =>
      String.eqb (tag e) name
      && match attrib e with [] => true | _ :: _ => false end
      && match type with
         | xs_string =>
             match children e with [] => true | _ :: _ => false end
         | xs_dateTime =>
             match children e with
             | [] => dateTime_lexical (from_option (text e))
             | _ :: _ => false
             end
         | xs_complexType sequence =>
             is_blank (text e)
             && (fix particles (ps : list xs_element) (cs : list element) : bool :=
                   match ps, cs with
                   | [], [] => true
                   | p :: ps', c :: cs' =>
                       validate_element p c && is_blank (tail c) && particles ps' cs'
                   | _, _ => false
                   end) sequence (children e)
         end
  end.

(** [etree.XMLSchema(schema).validate(root)]: the root element must be
    valid against one of the global element declarations. *)
Definition XMLSchema_validate (schema : list xs_element) (root : element) : bool :=
  existsb (fun decl => validate_element decl root) schema.

(** The schema document of [validate_xml]. *)
Definition schema : list xs_element :=
  [ xs_element_decl "Message" (xs_complexType
      [ xs_element_decl "Header" (xs_complexType
          [ xs_element_decl "To" xs_string;
            xs_element_decl "From" xs_string;
            xs_element_decl "Timestamp" xs_dateTime;
            xs_element_decl "Title" xs_string;
            xs_element_decl "Body" xs_string ]) ]) ].

Definition validate_xml (received_xml : element) : bool :=
  XMLSchema_validate schema received_xml.

End XMLSchema.

(** ** JSON documents

    What [request.get_json()] returns: [None], a bool, a number (kept as its
    literal; its value plays no part here), a [str], a [list] or a [dict]
    with string keys. *)

Inductive json :=
  | JNull
  | JBool (b : bool)
  | JNumber (literal : string)
  | JString (s : string)
  | JArray (items : list json)
  | JObject (d : gmap string json).

(** ** fastjsonschema, for the keywords of the filter schema *)

Module fastjsonschema.

Inductive json_type := type_object | type_string.

(** A schema definition. A keyword that is absent from the schema reads
    [None], the empty list, or [true] for [additionalProperties]. *)
Inductive definition := Schema {
  type : option json_type;
  minProperties : option nat;
  maxProperties : option nat;
  required : list string;
  properties : list (string * definition);
  additionalProperties : bool
}.

Definition type_name (t : json_type) : string :=
  match t with type_object => "object" | type_string => "string" end.

Definition isinstance (data : json) (t : json_type) : bool :=
  match t, data with
  | type_object, JObject _ => true
  | type_string, JString _ => true
  | _, _ => false
  end.

(** Python's [repr] of a list of strings, and of a set of strings. *)
Fixpoint repr_items (l : list string) : string :=
  match l with
  | [] => ""
  | [x] => "'" +:+ x +:+ "'"
  | x :: rest => "'" +:+ x +:+ "', " +:+ repr_items rest
  end.
Definition repr_list (l : list string) : string := "[" +:+ repr_items l +:+ "]".
Definition repr_set (s : gset string) : string := "{" +:+ repr_items (elements s) +:+ "}".

(** Checks run one after the other; the first exception ends the run. *)
Definition and_then (check rest : option string) : option string :=
  match check with Some message => Some message | None => rest end.
Infix ">>" := and_then (at level 65, right associativity).

(** The compiled validation function: [None] when the data passes, else
    the message of the [JsonSchemaException] raised by the first keyword
    that fails. Keywords are checked in the order the code generator
    emits them: [type], [minProperties], [maxProperties], [required],
    [properties], [additionalProperties]. The object keywords apply to
    dicts only. *)
Fixpoint validate (defn : definition) (name : string) (data : json) : option string :=
  match type defn with
  | Some t =>
      if isinstance data t then None
      else Some (name +:+ " must be " +:+ type_name t)
  | None => None
  end
  >>
  match data with
  | JObject d =>
      match minProperties defn with
      | Some n =>
          if Nat.ltb (size d) n
          then Some (name +:+ " must contain at least " +:+ pretty n +:+ " properties")
          else None
      | None => None
      end
      >>
      match maxProperties defn with
      | Some n =>
          if Nat.ltb n (size d)
          then Some (name +:+ " must contain less than or equal to "
                     +:+ pretty n +:+ " properties")
          else None
      | None => None
      end
      >>
      (if forallb (fun prop => bool_decide (is_Some (d !! prop))) (required defn)
       then None
       else Some (name +:+ " must contain " +:+ repr_list (required defn) +:+ " properties"))
      >>
      (fix each_property (ps : list (string * definition)) : option string :=
         match ps with
         | [] => None
         | (key, prop_definition) :: ps' =>
             match d !! key with
             | Some value => validate prop_definition (name +:+ "." +:+ key) value
             | None => None
             end
             >> each_property ps'
         end) (properties defn)
      >>
      (let data_keys : gset string := dom d ∖ list_to_set (map fst (properties defn)) in
       if additionalProperties defn || bool_decide (data_keys = ∅)
       then None
       else Some (name +:+ " must not contain " +:+ repr_set data_keys +:+ " properties"))
  | _ => None
  end.

End fastjsonschema.

(** The filter schema of [validate_json]: the schema of a string-valued
    property, the schema of the [filter] property, and the whole. *)
Definition string_property : fastjsonschema.definition :=
  {| fastjsonschema.type := Some fastjsonschema.type_string;
     fastjsonschema.minProperties := None;
     fastjsonschema.maxProperties := None;
     fastjsonschema.required := [];
     fastjsonschema.properties := [];
     fastjsonschema.additionalProperties := true |}.

Definition filter_property : fastjsonschema.definition :=
  {| fastjsonschema.type := Some fastjsonschema.type_object;
     fastjsonschema.minProperties := Some 1;
     fastjsonschema.maxProperties := Some 4;
     fastjsonschema.required := [];
     fastjsonschema.properties :=
       [("to", string_property); ("from", string_property);
        ("date", string_property); ("title", string_property)];
     fastjsonschema.additionalProperties := false |}.

Definition json_schema : fastjsonschema.definition :=
  {| fastjsonschema.type := Some fastjsonschema.type_object;
     fastjsonschema.minProperties := None;
     fastjsonschema.maxProperties := None;
     fastjsonschema.required := ["filter"];
     fastjsonschema.properties := [("filter", filter_property)];
     fastjsonschema.additionalProperties := true |}.

(** [validate_json]: ['valid'], or the message of the exception. *)
Definition validate_json (received_json : json) : string :=
  match fastjsonschema.validate json_schema "data" received_json with
  | None => "valid"
  | Some message => message
  end.

(** ** Responses *)

Record response := make_response { body : string; status : nat }.

Definition DOCTYPE : string :=
  "<?xml version=" +:+ dquote +:+ "1.0" +:+ dquote
  +:+ " encoding=" +:+ dquote +:+ "UTF-8" +:+ dquote +:+ "?>".

Definition send_error (error_text : string) : string :=
  DOCTYPE +:+ newline +:+ "<Error>" +:+ error_text +:+ "</Error>".

(** The registered error handlers; [abort(400)] ends in [bad_request], an
    uncaught exception in [internal_error]. *)
Definition bad_request : response := make_response (send_error "bad request") 400.
Definition internal_error : response := make_response (send_error "Internal server error") 500.

(** ** Exceptions *)

Inductive outcome (A : Type) :=
  | Return (a : A)
  | Raised.
Arguments Return {A} a.
Arguments Raised {A}.

Definition bind {A B : Type} (o : outcome A) (k : A -> outcome B) : outcome B :=
  match o with
  | Return a => k a
  | Raised => Raised
  end.
Notation "x <- o ;; k" := (bind o (fun x => k))
  (at level 100, o at next level, right associativity).

(** ** datetime *)

Record datetime := {
  year : nat; month : nat; day : nat;
  hour : nat; minute : nat; second : nat
}.

(** Decimal digits of [n], padded with zeros on the left to [width]. *)
Definition zero_pad (width : nat) (n : nat) : string :=
  let digits := pretty n in
  String.concat "" (repeat "0" (width - String.length digits)) +:+ digits.

(** [dt.strftime('%d.%m.%Y')] *)
Definition strftime_dmY (dt : datetime) : string :=
  zero_pad 2 (day dt) +:+ "." +:+ zero_pad 2 (month dt) +:+ "." +:+ zero_pad 4 (year dt).

(** ** The program state

    A Python object is its identity and what it holds. A message element
    never changes below its own tag, so a reference carries the subtree with
    it. What does change is where the element hangs: [append] on an lxml
    element moves the appended element out of its old place, so after
    [pack_message.append(message)] the object that the deque still refers to
    is a child of that [Messages] element. The state records it. *)

Definition ref := nat.

Record state := State {
  (** the deque [q], head first *)
  q : list (ref * element);
  (** [getparent()] of each message: the [Messages] element it was last
      appended to; no entry while it is the root of its own document *)
  getparent : gmap ref ref;
  (** the child elements of each [Messages] element, in document order *)
  subelements : gmap ref (list (ref * element));
  (** the next unused identity *)
  next_id : ref
}.

Definition initial : state :=
  {| q := []; getparent := ∅; subelements := ∅; next_id := 0 |}.

(** [len(q)] *)
Definition len_q (st : state) : nat := length (q st).

(** The records of the store in arrival order, without their identities. *)
Definition records (st : state) : list element := map snd (q st).

(** The root element of the document a message belongs to. *)
Definition getroot (st : state) (message : ref * element) : element :=
  match getparent st !! message.1 with
  | Some pack =>
      Element "Messages" [] None (map snd (default [] (subelements st !! pack))) None
  | None => message.2
  end.

(** [etree.Element("Messages")]: a new element, the root of a new document. *)
Definition new_Messages (st : state) : ref * state :=
  (next_id st,
   {| q := q st; getparent := getparent st;
      subelements := <[next_id st := []]> (subelements st);
      next_id := S (next_id st) |}).

(** [pack.append(message)]: unlink the element from its parent, if it has
    one, and link it as the last child of [pack]. *)
Definition append (pack : ref) (message : ref * element) (st : state) : state :=
  let unlinked :=
    match getparent st !! message.1 with
    | Some old => alter (filter (fun m : ref * element => m.1 ≠ message.1)) old (subelements st)
    | None => subelements st
    end in
  {| q := q st;
     getparent := <[message.1 := pack]> (getparent st);
     subelements := alter (fun l => (l ++ [message])%list) pack unlinked;
     next_id := next_id st |}.

(** ** The handlers *)

Definition handler := state -> response * state.

(** Decorator for checking if Queue is empty *)
Definition isQueue (func : handler) : handler :=
  fun st =>
    if Nat.eqb (len_q st) 0
    then (make_response (send_error "Queue is empty") 404, st)
    else func st.

Definition paths : gmap string string :=
  list_to_map [("to", "To"); ("from", "From"); ("title", "Title"); ("date", "Timestamp")].

(** [value == text] for a filter value and the [text] of an element, which
    is a [str] or [None]. *)
Definition eq_text (value : json) (t : option string) : bool :=
  match value, t with
  | JString a, Some b => String.eqb a b
  | JNull, None => true
  | _, _ => false
  end.

(** [all([f(key) for key in keys])]: the list is built in full before [all]
    looks at it, so an exception in any entry is raised. *)
Fixpoint all_of (f : string -> outcome bool) (keys : list string) : outcome bool :=
  match keys with
  | [] => Return true
  | key :: rest =>
      b <- f key ;;
      bs <- all_of f rest ;;
      Return (b && bs)
  end.

Section Broker.

(** [etree.fromstring]: the root element, or [None] for [XMLSyntaxError]. *)
Variable fromstring : string -> option element.
(** libxml2's lexical check of [xs:dateTime]. *)
Variable dateTime_lexical : string -> bool.
(** [dateutil.parser.parse]: the datetime, or [None] when it raises. *)
Variable parse : string -> option datetime.

(** Add message in Queue, if it matches the schema in validate_xml() and
    don't already exist *)
Definition sendMessage (request_data : string) : handler :=
  fun st =>
    match fromstring request_data with
    | None => (bad_request, st)
    | Some item_xml =>
        if validate_xml dateTime_lexical item_xml then
          if negb (Nat.eqb (len_q st) 0)
             && existsb (fun message : ref * element =>
                           String.eqb (tostring item_xml) (tostring message.2)) (q st)
          then (make_response (send_error "message already exist") 400, st)
          else
            (make_response "" 201,
             {| q := (q st ++ [(next_id st, item_xml)])%list;
                getparent := getparent st;
                subelements := subelements st;
                next_id := S (next_id st) |})
        else (make_response (send_error "xml is incorrect") 422, st)
    end.

(** Delete message from Queue *)
Definition getMessage_func : handler :=
  fun st =>
    match q st with
    | [] => (internal_error, st)
    | item :: rest =>
        (make_response "" 204,
         {| q := rest; getparent := getparent st;
            subelements := subelements st; next_id := next_id st |})
    end.

Definition getMessage : handler := isQueue getMessage_func.

(** [message.xpath(expr, name=paths[key])[0].text] *)
Definition check_mssg (st : state) (message : ref * element) (key : string)
  : outcome (option string) :=
  match paths !! key with
  | None => Raised
  | Some name =>
      match xpath_local_name (getroot st message) name with
      | [] => Raised
      | found :: _ => Return (text found)
      end
  end.

(** [parse(check_mssg(date)).strftime('%d.%m.%Y')] *)
Definition check_date (st : state) (message : ref * element) (date : string)
  : outcome string :=
  t <- check_mssg st message date ;;
  match t with
  | None => Raised
  | Some timestamp =>
      match parse timestamp with
      | None => Raised
      | Some dt => Return (strftime_dmY dt)
      end
  end.

(** One entry of the list that [all] is applied to. *)
Definition check_key (st : state) (message : ref * element)
           (s : gmap string json) (key : string) : outcome bool :=
  match s !! key with
  | None => Raised
  | Some value =>
      if String.eqb key "date"
      then d <- check_date st message key ;; Return (eq_text value (Some d))
      else t <- check_mssg st message key ;; Return (eq_text value t)
  end.

(** The body of [for message in q]. *)
Fixpoint for_message (s : gmap string json) (common_keys : list string)
         (pack_message : ref) (messages : list (ref * element)) (st : state)
  : outcome unit * state :=
  match messages with
  | [] => (Return tt, st)
  | message :: rest =>
      match all_of (check_key st message s) common_keys with
      | Raised => (Raised, st)
      | Return match_ =>
          for_message s common_keys pack_message rest
            (if match_ then append pack_message message st else st)
      end
  end.

(** Find message in Queue with json-filter: the [Messages] element, or
    [None] when it has no child. *)
Definition apply_filter (json_data : json) (st : state) : outcome (option ref) * state :=
  match json_data with
  | JObject data =>
      match data !! "filter" with
      | Some (JObject s) =>
          let common_keys := elements (dom paths ∩ dom s) in
          let (pack_message, st1) := new_Messages st in
          match for_message s common_keys pack_message (q st) st1 with
          | (Raised, st2) => (Raised, st2)
          | (Return _, st2) =>
              (Return (match default [] (subelements st2 !! pack_message) with
                       | [] => None
                       | _ :: _ => Some pack_message
                       end), st2)
          end
      | _ => (Raised, st)
      end
  | _ => (Raised, st)
  end.

(** The [Messages] element as it is serialized. *)
Definition Messages (st : state) (pack_message : ref) : element :=
  Element "Messages" [] None
          (map snd (default [] (subelements st !! pack_message))) None.

(** Find message in Queue *)
Definition findMessages_func (filter_json : json) : handler :=
  fun st =>
    let res := validate_json filter_json in
    if String.eqb res "valid" then
      match apply_filter filter_json st with
      | (Return (Some pack_message), st') =>
          (make_response (tostring_doctype (Messages st' pack_message) DOCTYPE) 200, st')
      | (Return None, st') =>
          (make_response (send_error "message not found") 404, st')
      | (Raised, st') => (internal_error, st')
      end
    else (make_response (send_error res) 400, st).

Definition findMessages (filter_json : json) : handler :=
  isQueue (findMessages_func filter_json).

End Broker.

(** ** The outcomes named by the specification

    The handlers answer with a body and a status; each outcome of the
    specification's taxonomy is the response that stands for it. *)

Definition accepted : response := make_response "" 201.
Definition removed : response := make_response "" 204.
Definition ParseError : response := bad_request.
Definition SchemaError : response := make_response (send_error "xml is incorrect") 422.
Definition DuplicateError : response := make_response (send_error "message already exist") 400.
Definition EmptyError : response := make_response (send_error "Queue is empty") 404.
Definition NoMatchError : response := make_response (send_error "message not found") 404.
Definition FilterValidationError (description : string) : response :=
  make_response (send_error description) 400.

(** A record with the same serialized content as [M] is in the store. *)
Definition stored (M : element) (st : state) : Prop :=
  exists r, In r (records st) /\ tostring r = tostring M.

(** The keys a filter may have. *)
Definition filter_keys : list string := ["to"; "from"; "date"; "title"].

(** The value of the [filter] key as the schema wants it: a dict with one
    to four entries, each key one of [filter_keys], each value a string. *)
Definition filter_entries (f : gmap string json) : Prop :=
  1 <= size f <= 4
  /\ forall key value, f !! key = Some value ->
                      In key filter_keys /\ exists s, value = JString s.

(** A query document with such a [filter]; it may have other top-level
    keys. *)
Definition filter_document (doc : json) : Prop :=
  exists d f, doc = JObject d /\ d !! "filter" = Some (JObject f) /\ filter_entries f.

(** A query document in the specification's words: such a [filter] is its
    one and only top-level key. *)
Definition filter_document_only (doc : json) : Prop :=
  exists f, doc = JObject {[ "filter" := JObject f ]} /\ filter_entries f.

(** [message] begins with [name]. *)
Definition begins_with (name message : string) : Prop :=
  exists rest, message = name +:+ rest.

(** The element [e] with its children replaced by [cs]. *)
Definition with_children (e : element) (cs : list element) : element :=
  Element (tag e) (attrib e) (text e) cs (tail e).

(** [doc] is the document [conformant] without its [Body] field. *)
Definition missing_Body (conformant doc : element) : Prop :=
  exists header fields body,
    children conformant = [header]
    /\ children header = (fields ++ [body])%list
    /\ tag body = "Body"
    /\ doc = with_children conformant [with_children header fields].

(** [doc] is the document [conformant] with one more element [extra], put
    at any place among the header fields or next to the header. *)
Definition extra_sibling (conformant doc : element) : Prop :=
  exists header before after extra,
    children conformant = [header]
    /\ ((children header = (before ++ after)%list
         /\ doc = with_children conformant
                    [with_children header (before ++ extra :: after)%list])
        \/ ([header] = (before ++ after)%list
            /\ doc = with_children conformant (before ++ extra :: after)%list)).

(** Requests served one after the other. *)
Fixpoint serve (requests : list handler) (st : state) : list response * state :=
  match requests with
  | [] => ([], st)
  | h :: rest =>
      let (r, st1) := h st in
      let (rs, st2) := serve rest st1 in
      (r :: rs, st2)
  end.

(** ** Concrete documents and library instances for the examples *)

Definition field (name value : string) : element :=
  Element name [] (Some value) [] None.

(** A message document with the five header fields. *)
Definition Message (to from timestamp title body : string) : element :=
  Element "Message" [] None
    [ Element "Header" [] None
        [ field "To" to; field "From" from; field "Timestamp" timestamp;
          field "Title" title; field "Body" body ] None ] None.

(** A query document [{"filter": {...}}] with string values. *)
Definition query (entries : list (string * string)) : json :=
  JObject {[ "filter" :=
    JObject (list_to_map (map (fun kv : string * string => (kv.1, JString kv.2)) entries)) ]}.

Definition digit (c : ascii) : option nat :=
  let n := nat_of_ascii c in
  if Nat.leb 48 n && Nat.leb n 57 then Some (n - 48) else None.

Fixpoint number (acc : nat) (digits : list ascii) : option nat :=
  match digits with
  | [] => Some acc
  | c :: rest =>
      match digit c with
      | Some d => number (10 * acc + d) rest
      | None => None
      end
  end.

(** A date-time parser for the form [YYYY-MM-DDThh:mm:ss] followed by
    anything (a fraction, a zone). On these strings [dateutil] gives the
    same calendar fields. *)
Definition isoparse (s : string) : option datetime :=
  match list_ascii_of_string s with
  | y1 :: y2 :: y3 :: y4 :: c1 :: m1 :: m2 :: c2 :: d1 :: d2 :: c3
       :: h1 :: h2 :: c4 :: n1 :: n2 :: c5 :: s1 :: s2 :: _ =>
      if Ascii.eqb c1 "-" && Ascii.eqb c2 "-" && Ascii.eqb c3 "T"
         && Ascii.eqb c4 ":" && Ascii.eqb c5 ":"
      then
        match number 0 [y1; y2; y3; y4], number 0 [m1; m2], number 0 [d1; d2],
              number 0 [h1; h2], number 0 [n1; n2], number 0 [s1; s2] with
        | Some y, Some m, Some d, Some h, Some n, Some sec =>
            if Nat.leb 1 m && Nat.leb m 12 && Nat.leb 1 d && Nat.leb d 31
               && Nat.leb h 23 && Nat.leb n 59 && Nat.leb sec 59 && Nat.leb 1 y
            then Some {| year := y; month := m; day := d;
                         hour := h; minute := n; second := sec |}
            else None
        | _, _, _, _, _, _ => None
        end
      else None
  | _ => None
  end.

Definition isodatetime (s : string) : bool :=
  match isoparse s with Some _ => true | None => false end.

(** A parser that knows the documents of the examples by their serialized
    form and rejects every other input. *)
Definition parse_known (known : list element) (data : string) : option element :=
  find (fun e => String.eqb (tostring e) data) known.

Definition hello : element := Message "x" "y" "2023-01-01T00:00:00Z" "hello" "world".
Definition first_of_may : element := Message "a" "b" "2023-05-01T14:30:00Z" "x" "one".
Definition second_of_may : element := Message "a" "b" "2023-05-02T09:00:00Z" "y" "two".

(** [hello] without its [Body], and [hello] with a sixth field. *)
Definition hello_without_Body : element :=
  Element "Message" [] None
    [ Element "Header" [] None
        [ field "To" "x"; field "From" "y"; field "Timestamp" "2023-01-01T00:00:00Z";
          field "Title" "hello" ] None ] None.

Definition hello_with_Priority : element :=
  Element "Message" [] None
    [ Element "Header" [] None
        [ field "To" "x"; field "From" "y"; field "Timestamp" "2023-01-01T00:00:00Z";
          field "Title" "hello"; field "Body" "world"; field "Priority" "high" ] None ] None.

(** A conformant message whose [To] element is empty; lxml gives such an
    element the text [None]. *)
Definition to_nobody : element :=
  Element "Message" [] None
    [ Element "Header" [] None
        [ Element "To" [] None [] None; field "From" "y";
          field "Timestamp" "2023-01-01T00:00:00Z";
          field "Title" "hello"; field "Body" "world" ] None ] None.

Definition known_documents : list element :=
  [hello; first_of_may; second_of_may; hello_without_Body; hello_with_Priority; to_nobody].

(** The query document [{"filter": {"to": "a"}, "note": null}]. *)
Definition query_with_note : json :=
  JObject (<["note" := JNull]> {[ "filter" := JObject {[ "to" := JString "a" ]} ]}).

(** Two request bodies and the documents they parse to. *)
Definition may_messages : list element := [first_of_may; second_of_may].
Definition may_bodies : list string := map tostring may_messages.

(** The handlers with these instances of the libraries. *)
Definition send (M : element) : handler :=
  sendMessage (parse_known known_documents) isodatetime (tostring M).
Definition send_raw (request_data : string) : handler :=
  sendMessage (parse_known known_documents) isodatetime request_data.
Definition find (entries : list (string * string)) : handler :=
  findMessages isoparse (query entries).

(** The store after [first_of_may] and [second_of_may] were sent, and the
    same store after the query [{"filter": {"to": "a"}}], which both match. *)
Definition two_messages : state :=
  (serve [send first_of_may; send second_of_may] initial).2.
Definition two_messages_queried : state :=
  (find [("to", "a")] two_messages).2.

(** ** The record fields, read off the document

    The field [name] of a record is the character data of the header child
    with that tag. This is what the specification compares a filter value
    with; it does not go through XPath. *)
Definition header_field (name : string) (record : element) : option element :=
  match children record with
  | header :: _ => head (List.filter (fun c => String.eqb (tag c) name) (children header))
  | [] => None
  end.

Definition record_field (name : string) (record : element) : option string :=
  (fun f => from_option (text f)) <$> header_field name record.

(** The day of a timestamp as [DD.MM.YYYY]. *)
Definition normalized_date (parse : string -> option datetime) (record : element)
  : option string :=
  match record_field "Timestamp" record with
  | Some timestamp => strftime_dmY <$> parse timestamp
  | None => None
  end.

(** A record satisfies one entry of a filter. *)
Definition satisfies_entry (parse : string -> option datetime) (record : element)
           (entry : string * string) : bool :=
  match entry.1 with
  | "to" => bool_decide (record_field "To" record = Some entry.2)
  | "from" => bool_decide (record_field "From" record = Some entry.2)
  | "title" => bool_decide (record_field "Title" record = Some entry.2)
  | "date" => bool_decide (normalized_date parse record = Some entry.2)
  | _ => true
  end.

(** A record satisfies all entries of a filter. *)
Definition satisfies (parse : string -> option datetime)
           (entries : list (string * string)) (record : element) : bool :=
  forallb (satisfies_entry parse record) entries.

(** ** Stores no query has answered from

    No message of the queue has been appended to a [Messages] element: each
    is still the root of the document it was parsed into. *)
Definition untouched (st : state) : Prop :=
  forall message, In message (q st) -> getparent st !! message.1 = None.

(** The test of the filter loop, for a record that is the root of its own
    document. *)
Definition match_own (parse : string -> option datetime) (s : gmap string json)
           (record : element) : outcome bool :=
  all_of (check_key parse initial (0, record) s) (elements (dom paths ∩ dom s)).


(** ** Requests

    The three routes of the application, and the states the process goes
    through when requests arrive one after the other. *)

Inductive request :=
  | POST_sendMessage (request_data : string)
  | GET_getMessage
  | GET_findMessages (filter_json : json).

Section Requests.

Variable fromstring : string -> option element.
Variable dateTime_lexical : string -> bool.
Variable parse : string -> option datetime.

Definition handle (r : request) : handler :=
  match r with
  | POST_sendMessage request_data => sendMessage fromstring dateTime_lexical request_data
  | GET_getMessage => getMessage
  | GET_findMessages filter_json => findMessages parse filter_json
  end.

(** The states reached from the start of the process. *)
Inductive reachable : state -> Prop :=
  | reachable_initial : reachable initial
  | reachable_handle (r : request) (st : state) :
      reachable st -> reachable (handle r st).2.

End Requests.

(** The identities of the state are in order: no two messages of the
    queue are the same object, and every identity in use was handed out
    before [next_id]. *)
Definition identities_fresh (st : state) : Prop :=
  NoDup (map fst (q st))
  /\ (forall message, In message (q st) -> message.1 < next_id st)
  /\ (forall r pack, getparent st !! r = Some pack -> r < next_id st /\ pack < next_id st).

(** How many of the responses have the status [code]. *)
Definition count_status (code : nat) (responses : list response) : nat :=
  length (List.filter (fun r => Nat.eqb (status r) code) responses).

(** The [filter] dict of the query document [query entries]. *)
Definition filter_of (entries : list (string * string)) : gmap string json :=
  list_to_map (map (fun kv : string * string => (kv.1, JString kv.2)) entries).


(** ** An end-of-day timestamp

    XML Schema writes midnight at the end of a day as [24:00:00]; a
    date-time parser that wants an hour from 0 to 23 does not read it. The
    instances below are a lexical check with this form and a document that
    uses it. *)
Definition end_of_day (s : string) : bool :=
  String.eqb (substring 10 9 s) "T24:00:00"
  && isodatetime (substring 0 10 s +:+ "T00:00:00").

Definition lexical_dateTime (s : string) : bool := isodatetime s || end_of_day s.

Definition end_of_april : element := Message "a" "b" "2023-04-30T24:00:00" "z" "three".

(** The store after [first_of_may] and [end_of_april] were sent. *)
Definition send_lexical (M : element) : handler :=
  sendMessage (parse_known [first_of_may; end_of_april]) lexical_dateTime (tostring M).
Definition with_end_of_april : state :=
  (serve [send_lexical first_of_may; send_lexical end_of_april] initial).2.

(** * Properties *)

Section Properties.

Variable fromstring : string -> option element.
Variable dateTime_lexical : string -> bool.
Variable parse : string -> option datetime.

(** ** The empty-queue guard *)

Lemma isQueue_empty (func : handler) (st : state) :
  q st = [] -> isQueue func st = (EmptyError, st).
Proof.
  intros Hq. unfold isQueue, len_q. rewrite Hq. reflexivity.
Qed.

Lemma isQueue_nonempty (func : handler) (st : state) :
  q st <> [] -> isQueue func st = func st.
Proof.
  intros Hq. unfold isQueue, len_q.
  destruct (q st) as [|m l]; [congruence | reflexivity].
Qed.

(** ** The duplicate scan *)

Lemma duplicate_scan (item : element) (st : state) :
  negb (Nat.eqb (len_q st) 0)
  && existsb (fun message : ref * element =>
                String.eqb (tostring item) (tostring message.2)) (q st) = true
  <-> stored item st.
Proof.
  unfold stored, records, len_q. split.
  - intros H. apply andb_prop in H as [_ H].
    apply existsb_exists in H as [m [Hin Heq]].
    exists m.2. split.
    + apply in_map. exact Hin.
    + apply String.eqb_eq in Heq. symmetry. exact Heq.
  - intros [r [Hin Heq]].
    apply in_map_iff in Hin as [m [Hm Hin]]. subst r.
    apply andb_true_intro. split.
    + destruct (q st); [destruct Hin | reflexivity].
    + apply existsb_exists. exists m. split; [exact Hin|].
      apply String.eqb_eq. symmetry. exact Heq.
Qed.

Lemma sendMessage_duplicate (request_data : string) (M : element) (st : state) :
  fromstring request_data = Some M ->
  validate_xml dateTime_lexical M = true ->
  stored M st ->
  sendMessage fromstring dateTime_lexical request_data st = (DuplicateError, st).
Proof.
  intros Hparse Hvalid Hdup. unfold sendMessage.
  rewrite Hparse, Hvalid.
  apply duplicate_scan in Hdup. rewrite Hdup. reflexivity.
Qed.

Lemma sendMessage_fresh (request_data : string) (M : element) (st : state) :
  fromstring request_data = Some M ->
  validate_xml dateTime_lexical M = true ->
  ~ stored M st ->
  sendMessage fromstring dateTime_lexical request_data st
  = (accepted,
     {| q := (q st ++ [(next_id st, M)])%list; getparent := getparent st;
        subelements := subelements st; next_id := S (next_id st) |}).
Proof.
  intros Hparse Hvalid Hfresh. unfold sendMessage.
  rewrite Hparse, Hvalid.
  destruct (negb (Nat.eqb (len_q st) 0) && existsb _ (q st)) eqn:Hscan.
  - apply duplicate_scan in Hscan. contradiction.
  - reflexivity.
Qed.

Lemma stored_dec (M : element) (st : state) : stored M st \/ ~ stored M st.
Proof.
  destruct (negb (Nat.eqb (len_q st) 0)
            && existsb (fun message : ref * element =>
                          String.eqb (tostring M) (tostring message.2)) (q st)) eqn:Hscan.
  - left. apply duplicate_scan. exact Hscan.
  - right. intros H. apply duplicate_scan in H. congruence.
Qed.

Lemma stored_after_append (M : element) (l : list (ref * element))
      (g : gmap ref ref) (s : gmap ref (list (ref * element))) (n i : ref) :
  stored M {| q := (l ++ [(i, M)])%list; getparent := g; subelements := s; next_id := n |}.
Proof.
  exists M. split; [|reflexivity].
  unfold records. simpl. rewrite map_app. apply in_or_app. right. left. reflexivity.
Qed.

(** C1. For every state of the store and every conformant message [M]
    (the request body parses to [M] and [M] is valid against the schema):
    when a record with the same serialized content as [M] is stored,
    [sendMessage] answers [DuplicateError] and leaves the state as it is;
    when none is, it answers [accepted], the records are the old ones
    followed by [M], and the size is one more. Sent a second time right
    after, the same body is answered with [DuplicateError] and changes
    nothing, so the two submissions together grow a store that did not
    hold [M] by exactly one. *)
Theorem sendMessage_no_duplicates (request_data : string) (M : element) (st : state) :
  fromstring request_data = Some M ->
  validate_xml dateTime_lexical M = true ->
  let send := sendMessage fromstring dateTime_lexical request_data in
  (stored M st -> send st = (DuplicateError, st))
  /\ (~ stored M st ->
      (send st).1 = accepted
      /\ records (send st).2 = (records st ++ [M])%list
      /\ len_q (send st).2 = S (len_q st))
  /\ (send (send st).2).1 = DuplicateError
  /\ (send (send st).2).2 = (send st).2
  /\ (~ stored M st -> len_q (send (send st).2).2 = S (len_q st)).
Proof.
  intros Hparse Hvalid send.
  assert (Hfresh : ~ stored M st ->
                   (send st).1 = accepted
                   /\ records (send st).2 = (records st ++ [M])%list
                   /\ len_q (send st).2 = S (len_q st)).
  { intros Hno. unfold send.
    rewrite (sendMessage_fresh request_data M st Hparse Hvalid Hno).
    unfold records, len_q. simpl.
    rewrite map_app, length_app. simpl.
    repeat split. lia. }
  assert (Hafter : stored M (send st).2).
  { destruct (stored_dec M st) as [Hyes | Hno].
    - unfold send. rewrite (sendMessage_duplicate request_data M st Hparse Hvalid Hyes).
      exact Hyes.
    - unfold send. rewrite (sendMessage_fresh request_data M st Hparse Hvalid Hno).
      apply stored_after_append. }
  pose proof (sendMessage_duplicate request_data M (send st).2 Hparse Hvalid Hafter) as Hsecond.
  fold send in Hsecond.
  split; [exact (sendMessage_duplicate request_data M st Hparse Hvalid)|].
  split; [exact Hfresh|].
  rewrite Hsecond. simpl.
  repeat split. intros Hno. apply Hfresh. exact Hno.
Qed.

(** ** Input that does not parse *)

(** C8. For every request body that the parser rejects, [sendMessage]
    answers [ParseError] and the state is the one before the request. The
    answer is given on the parser's verdict alone: it is the same for every
    schema check ([dateTime_lexical] stands for the part of the schema
    validator that is left open), since without a parsed element there is
    nothing [validate_xml] could be applied to. *)
Theorem sendMessage_parse_error (request_data : string) (st : state) :
  fromstring request_data = None ->
  sendMessage fromstring dateTime_lexical request_data st = (ParseError, st)
  /\ ParseError <> SchemaError.
Proof.
  intros Hparse. split.
  - unfold sendMessage. rewrite Hparse. reflexivity.
  - discriminate.
Qed.

(** ** The empty store *)

(** C6. For every state whose queue is empty, a consumption call and a
    query call, whatever the query document, are answered with
    [EmptyError] (a response, not an exception), and the state, with its
    empty queue, is the one before the call. *)
Theorem empty_store_EmptyError (filter_json : json) (st : state) :
  q st = [] ->
  getMessage st = (EmptyError, st)
  /\ findMessages parse filter_json st = (EmptyError, st)
  /\ q (getMessage st).2 = []
  /\ q (findMessages parse filter_json st).2 = [].
Proof.
  intros Hq. unfold getMessage, findMessages.
  rewrite !isQueue_empty by exact Hq. simpl. auto.
Qed.

(** C10. For every query against an empty queue the answer is
    [EmptyError] whatever the query document is: the guard of [isQueue]
    answers before [findMessages] looks at the document. In particular a
    document that [validate_json] rejects is answered with [EmptyError],
    which is a different response from [FilterValidationError] with any
    description. *)
Theorem empty_store_before_filter_validation (filter_json : json) (st : state) :
  q st = [] ->
  findMessages parse filter_json st = (EmptyError, st)
  /\ (validate_json filter_json <> "valid" ->
      (findMessages parse filter_json st).1
      <> FilterValidationError (validate_json filter_json))
  /\ forall description, EmptyError <> FilterValidationError description.
Proof.
  intros Hq.
  assert (Hdiff : forall description, EmptyError <> FilterValidationError description)
    by (intros description; discriminate).
  unfold findMessages. rewrite isQueue_empty by exact Hq.
  split; [reflexivity|]. split; [|exact Hdiff].
  intros _. apply Hdiff.
Qed.

(** ** Documents that do not conform *)

Lemma validate_element_tag (decl : xs_element) (e : element) :
  validate_element dateTime_lexical decl e = true -> tag e = decl_name decl.
Proof.
  destruct decl as [name type]. simpl. intros H.
  apply andb_prop in H as [H _]. apply andb_prop in H as [H _].
  apply String.eqb_eq in H. exact H.
Qed.

(** Validity against a sequence: the children are valid against the
    declarations of the sequence, one for one. *)
Lemma validate_element_sequence (name : string) (sequence : list xs_element)
      (e : element) :
  validate_element dateTime_lexical (xs_element_decl name (xs_complexType sequence)) e = true ->
  Forall2 (fun decl c => validate_element dateTime_lexical decl c = true)
          sequence (children e).
Proof.
  simpl. intros H.
  apply andb_prop in H as [_ H]. apply andb_prop in H as [_ H].
  revert H. generalize (children e).
  induction sequence as [|p ps IH]; intros [|c cs] H; try discriminate.
  - constructor.
  - apply andb_prop in H as [H Hrest]. apply andb_prop in H as [H _].
    constructor; [exact H | apply IH; exact Hrest].
Qed.

Lemma valid_children_tags (sequence : list xs_element) (cs : list element) :
  Forall2 (fun decl c => validate_element dateTime_lexical decl c = true) sequence cs ->
  map tag cs = map decl_name sequence.
Proof.
  induction 1 as [|decl c ds cs Hv _ IH]; simpl.
  - reflexivity.
  - rewrite (validate_element_tag decl c Hv), IH. reflexivity.
Qed.

(** A valid document is a [Message] with one [Header] whose children are
    the five fields, in the order of the schema. *)
Lemma validate_xml_shape (e : element) :
  validate_xml dateTime_lexical e = true ->
  tag e = "Message"
  /\ exists header,
      children e = [header]
      /\ tag header = "Header"
      /\ map tag (children header) = ["To"; "From"; "Timestamp"; "Title"; "Body"].
Proof.
  unfold validate_xml, XMLSchema_validate, schema.
  cbn [existsb]. rewrite orb_false_r. intros H.
  split; [exact (validate_element_tag _ _ H)|].
  apply validate_element_sequence in H.
  inversion H as [|decl header ds cs Hheader Hrest Hd Hc]; subst.
  inversion Hrest; subst.
  exists header. split; [reflexivity|].
  split; [exact (validate_element_tag _ _ Hheader)|].
  apply validate_element_sequence in Hheader.
  apply valid_children_tags in Hheader. exact Hheader.
Qed.

Lemma children_with_children (e : element) (cs : list element) :
  children (with_children e cs) = cs.
Proof. reflexivity. Qed.

Lemma missing_Body_invalid (conformant doc : element) :
  validate_xml dateTime_lexical conformant = true ->
  missing_Body conformant doc ->
  validate_xml dateTime_lexical doc = false.
Proof.
  intros Hc (header & fields & body & Hch & Hfields & _ & ->).
  apply not_true_is_false. intros Hdoc.
  apply validate_xml_shape in Hc as (_ & h & Hh & _ & Htags).
  apply validate_xml_shape in Hdoc as (_ & h' & Hh' & _ & Htags').
  rewrite children_with_children in Hh'. injection Hh' as <-.
  rewrite children_with_children in Htags'.
  rewrite Hch in Hh. injection Hh as <-.
  rewrite Hfields, map_app in Htags.
  apply (f_equal (@length string)) in Htags, Htags'.
  rewrite length_app in Htags. simpl in Htags, Htags'. lia.
Qed.

Lemma extra_sibling_invalid (conformant doc : element) :
  validate_xml dateTime_lexical conformant = true ->
  extra_sibling conformant doc ->
  validate_xml dateTime_lexical doc = false.
Proof.
  intros Hc (header & before & after & extra & Hch & Hcase).
  apply not_true_is_false. intros Hdoc.
  apply validate_xml_shape in Hc as (_ & h & Hh & _ & Htags).
  apply validate_xml_shape in Hdoc as (_ & h' & Hh' & _ & Htags').
  rewrite Hch in Hh. injection Hh as <-.
  destruct Hcase as [[Hsplit ->] | [Hsplit ->]];
    rewrite children_with_children in Hh'.
  - injection Hh' as <-. rewrite children_with_children in Htags'.
    rewrite Hsplit in Htags.
    apply (f_equal (@length string)) in Htags, Htags'.
    rewrite length_map, length_app in Htags, Htags'. simpl in Htags, Htags'. lia.
  - apply (f_equal (@length element)) in Hsplit, Hh'.
    rewrite length_app in Hsplit, Hh'. simpl in Hsplit, Hh'. lia.
Qed.

(** C7. For every request body that parses to a document [doc] which is
    not valid against the message schema, [sendMessage] answers
    [SchemaError] and the state is the one before the request. A document
    that is a conformant one without its [Body] field, and a document that
    is a conformant one with one more element among the header fields or
    next to the header, are such documents. *)
Theorem sendMessage_schema_error (request_data : string) (doc : element) (st : state) :
  fromstring request_data = Some doc ->
  let send := sendMessage fromstring dateTime_lexical request_data in
  (validate_xml dateTime_lexical doc = false -> send st = (SchemaError, st))
  /\ (forall conformant,
        validate_xml dateTime_lexical conformant = true ->
        missing_Body conformant doc \/ extra_sibling conformant doc ->
        validate_xml dateTime_lexical doc = false
        /\ send st = (SchemaError, st)
        /\ records (send st).2 = records st
        /\ len_q (send st).2 = len_q st).
Proof.
  intros Hparse send.
  assert (Hreject : validate_xml dateTime_lexical doc = false -> send st = (SchemaError, st)).
  { intros Hinvalid. unfold send, sendMessage. rewrite Hparse, Hinvalid. reflexivity. }
  split; [exact Hreject|].
  intros conformant Hc Hshape.
  assert (Hinvalid : validate_xml dateTime_lexical doc = false).
  { destruct Hshape as [Hm | He].
    - exact (missing_Body_invalid conformant doc Hc Hm).
    - exact (extra_sibling_invalid conformant doc Hc He). }
  rewrite (Hreject Hinvalid). simpl. auto.
Qed.

(** ** First in, first out *)

Lemma getMessage_head (item : ref * element) (rest : list (ref * element)) (st : state) :
  q st = item :: rest ->
  getMessage st
  = (removed, {| q := rest; getparent := getparent st;
                 subelements := subelements st; next_id := next_id st |}).
Proof.
  intros Hq. unfold getMessage. rewrite isQueue_nonempty by (rewrite Hq; discriminate).
  unfold getMessage_func. rewrite Hq. reflexivity.
Qed.

Lemma serve_getMessage (k : nat) :
  forall st, k <= len_q st ->
    (serve (repeat getMessage k) st).1 = repeat removed k
    /\ records (serve (repeat getMessage k) st).2 = drop k (records st).
Proof.
  induction k as [|k IH]; intros st Hk.
  - simpl. split; reflexivity.
  - unfold len_q in Hk. destruct (q st) as [|item rest] eqn:Hq; [simpl in Hk; lia|].
    cbn [repeat serve]. rewrite (getMessage_head item rest st Hq).
    specialize (IH {| q := rest; getparent := getparent st;
                      subelements := subelements st; next_id := next_id st |}).
    destruct (serve (repeat getMessage k) _) as [rs st2] eqn:Hserve.
    simpl in *. destruct IH as [IH1 IH2]; [unfold len_q; simpl; lia|].
    split.
    + rewrite IH1. reflexivity.
    + rewrite IH2. unfold records. rewrite Hq. reflexivity.
Qed.

Lemma not_stored_of_NoDup (M : element) (rest : list element) (st : state) :
  NoDup (map tostring (records st ++ M :: rest)%list) -> ~ stored M st.
Proof.
  intros Hnodup (r & Hin & Heq).
  rewrite map_app in Hnodup. apply NoDup_app in Hnodup as (_ & Hdisjoint & _).
  apply (Hdisjoint (tostring r)).
  - apply list_elem_of_In. apply in_map. exact Hin.
  - rewrite Heq. simpl. left.
Qed.

Lemma serve_sendMessage (bodies : list string) (messages : list element) :
  Forall2 (fun body M => fromstring body = Some M) bodies messages ->
  Forall (fun M => validate_xml dateTime_lexical M = true) messages ->
  forall st,
    NoDup (map tostring (records st ++ messages)%list) ->
    (serve (map (sendMessage fromstring dateTime_lexical) bodies) st).1
    = repeat accepted (length messages)
    /\ records (serve (map (sendMessage fromstring dateTime_lexical) bodies) st).2
       = (records st ++ messages)%list.
Proof.
  induction 1 as [|body M bodies messages Hparse _ IH]; intros Hvalid st Hnodup.
  - simpl. rewrite app_nil_r. split; reflexivity.
  - apply Forall_cons in Hvalid as [HM Hvalid].
    cbn [map serve length repeat].
    rewrite (sendMessage_fresh body M st Hparse HM (not_stored_of_NoDup M messages st Hnodup)).
    set (st1 := {| q := (q st ++ [(next_id st, M)])%list; getparent := getparent st;
                   subelements := subelements st; next_id := S (next_id st) |}).
    assert (Hrec : records st1 = (records st ++ [M])%list).
    { unfold records, st1. simpl. rewrite map_app. reflexivity. }
    specialize (IH Hvalid st1).
    destruct (serve (map _ bodies) st1) as [rs st2] eqn:Hserve.
    simpl in *. destruct IH as [IH1 IH2].
    + rewrite Hrec, <- app_assoc. exact Hnodup.
    + split.
      * rewrite IH1. reflexivity.
      * rewrite IH2, Hrec, <- app_assoc. reflexivity.
Qed.

(** C5. For every sequence of [N] conformant messages with pairwise
    different serialized content, sent to the initially empty store: all
    [N] are accepted and the store holds them in the order sent. For every
    [k <= N], [k] consumption calls that follow are all answered with
    [removed] and leave the messages from the [k]-th on, in the order
    sent: each call removes the head, the oldest record, and makes the
    store one shorter. After [N] calls the store is empty. *)
Theorem fifo_order (bodies : list string) (messages : list element) :
  Forall2 (fun body M => fromstring body = Some M) bodies messages ->
  Forall (fun M => validate_xml dateTime_lexical M = true) messages ->
  NoDup (map tostring messages) ->
  let N := length messages in
  let inserted := serve (map (sendMessage fromstring dateTime_lexical) bodies) initial in
  inserted.1 = repeat accepted N
  /\ records inserted.2 = messages
  /\ (forall k, k <= N ->
        let consumed := serve (repeat getMessage k) inserted.2 in
        consumed.1 = repeat removed k
        /\ records consumed.2 = drop k messages
        /\ len_q consumed.2 = N - k)
  /\ records (serve (repeat getMessage N) inserted.2).2 = [].
Proof.
  intros Hparse Hvalid Hnodup N inserted.
  destruct (serve_sendMessage bodies messages Hparse Hvalid initial Hnodup) as [Hr Hrec].
  fold inserted in Hr, Hrec. simpl in Hrec.
  assert (Hlen : len_q inserted.2 = N).
  { unfold len_q, N. rewrite <- Hrec. unfold records. rewrite length_map. reflexivity. }
  assert (Hconsume : forall k, k <= N ->
            (serve (repeat getMessage k) inserted.2).1 = repeat removed k
            /\ records (serve (repeat getMessage k) inserted.2).2 = drop k messages
            /\ len_q (serve (repeat getMessage k) inserted.2).2 = N - k).
  { intros k Hk.
    destruct (serve_getMessage k inserted.2) as [H1 H2]; [lia|].
    rewrite Hrec in H2. repeat split; [exact H1 | exact H2 |].
    unfold len_q. rewrite <- (length_map snd). fold (records (serve (repeat getMessage k) inserted.2).2).
    rewrite H2, length_drop. reflexivity. }
  repeat split; [exact Hr | exact Hrec | apply Hconsume; assumption ..|].
  destruct (Hconsume N (le_n N)) as (_ & H2 & _).
  rewrite H2. apply drop_all.
Qed.

(** ** The filter validator *)

Import fastjsonschema.

Lemma and_then_None (check rest : option string) :
  check >> rest = None <-> check = None /\ rest = None.
Proof.
  destruct check; simpl; split; intros H;
    try (destruct H; congruence); auto; discriminate.
Qed.

Lemma and_then_Some (check rest : option string) (message : string) :
  check >> rest = Some message ->
  check = Some message \/ rest = Some message.
Proof. destruct check; simpl; auto. Qed.

Lemma append_assoc (s1 s2 s3 : string) :
  (s1 +:+ s2) +:+ s3 = s1 +:+ (s2 +:+ s3).
Proof.
  induction s1 as [|c s1 IH]; [reflexivity|].
  change (String c ((s1 +:+ s2) +:+ s3) = String c (s1 +:+ (s2 +:+ s3))).
  rewrite IH. reflexivity.
Qed.

Lemma begins_with_nested (name key rest : string) :
  begins_with name ((name +:+ "." +:+ key) +:+ rest).
Proof.
  exists ("." +:+ key +:+ rest). rewrite !append_assoc. reflexivity.
Qed.

Lemma begins_with_trans (name nested message : string) :
  begins_with name nested -> begins_with nested message -> begins_with name message.
Proof.
  intros [r1 ->] [r2 ->]. exists (r1 +:+ r2). apply append_assoc.
Qed.

Lemma validate_string_property (name : string) (value : json) :
  validate string_property name value = None <-> exists s, value = JString s.
Proof.
  destruct value; simpl; split; intros H;
    try discriminate; try (destruct H; discriminate); eauto.
Qed.

Lemma validate_string_property_message (name : string) (value : json) (message : string) :
  validate string_property name value = Some message -> begins_with name message.
Proof.
  destruct value; simpl; intros H; try discriminate;
    injection H as <-; eexists; reflexivity.
Qed.

Lemma filter_keys_set (key : string) :
  key ∈ (list_to_set (map fst (properties filter_property)) : gset string)
  <-> In key filter_keys.
Proof.
  rewrite elem_of_list_to_set, list_elem_of_In. reflexivity.
Qed.

Lemma validate_filter_property (name : string) (f : gmap string json) :
  validate filter_property name (JObject f) = None <-> filter_entries f.
Proof.
  cbn [validate filter_property type minProperties maxProperties required
       properties additionalProperties isinstance forallb].
  rewrite !and_then_None. unfold filter_entries. split.
  - intros (_ & Hmin & Hmax & _ & Hprops & Hextra).
    destruct (Nat.ltb_spec (size f) 1); [discriminate|].
    destruct (Nat.ltb_spec 4 (size f)); [discriminate|].
    split; [lia|]. intros key value Hkey.
    rewrite orb_false_l in Hextra.
    destruct (bool_decide _) eqn:Hset in Hextra; [|discriminate].
    apply bool_decide_eq_true in Hset.
    assert (Hin : In key filter_keys).
    { apply filter_keys_set.
      destruct (decide (key ∈ (list_to_set (map fst (properties filter_property))
                               : gset string))) as [Hyes | Hno]; [exact Hyes|].
      exfalso. apply (not_elem_of_empty (C := gset string) key).
      rewrite <- Hset. apply elem_of_difference. split; [|exact Hno].
      apply elem_of_dom. eexists. exact Hkey. }
    split; [exact Hin|].
    destruct Hprops as (Hto & Hfrom & Hdate & Htitle & _).
    simpl in Hin.
    destruct Hin as [<- | [<- | [<- | [<- | []]]]];
      [rewrite Hkey in Hto | rewrite Hkey in Hfrom
       | rewrite Hkey in Hdate | rewrite Hkey in Htitle];
      eapply validate_string_property; eassumption.
  - intros [[Hmin Hmax] Hentries].
    assert (Hprop : forall key nested,
               match f !! key with
               | Some value => validate string_property nested value
               | None => None
               end = None).
    { intros key nested. destruct (f !! key) as [value|] eqn:Hkey; [|reflexivity].
      apply validate_string_property. apply (Hentries key value Hkey). }
    repeat split; try apply Hprop.
    + destruct (Nat.ltb_spec (size f) 1); [lia | reflexivity].
    + destruct (Nat.ltb_spec 4 (size f)); [lia | reflexivity].
    + rewrite orb_false_l. rewrite bool_decide_eq_true_2; [reflexivity|].
      apply set_eq. intros key. split; [|intros H; exfalso; set_solver].
      intros [Hdom Hno]%elem_of_difference. exfalso. apply Hno.
      apply elem_of_dom in Hdom as [value Hkey].
      apply filter_keys_set. apply (Hentries key value Hkey).
Qed.

Lemma validate_filter_property_object (name : string) (value : json) :
  validate filter_property name value = None -> exists f, value = JObject f.
Proof.
  destruct value; cbn; intros H; try discriminate; eauto.
Qed.

Lemma validate_filter_property_message (name : string) (value : json) (message : string) :
  validate filter_property name value = Some message -> begins_with name message.
Proof.
  assert (Hnested : forall key v,
             match v with
             | Some value => validate string_property (name +:+ "." +:+ key) value
             | None => None
             end = Some message -> begins_with name message).
  { intros key [v|] H; [|discriminate].
    apply validate_string_property_message in H.
    apply (begins_with_trans name (name +:+ "." +:+ key)); [|exact H].
    exists ("." +:+ key). reflexivity. }
  destruct value as [| | | | |f];
    try (cbn; intros H; injection H as <-; eexists; reflexivity).
  cbn [validate filter_property type minProperties maxProperties required
       properties additionalProperties isinstance forallb].
  intros H.
  repeat match type of H with
         | _ >> _ = Some _ => apply and_then_Some in H as [H | H]
         end;
    try discriminate;
    try (eapply Hnested; eassumption);
    match type of H with
    | (if ?c then _ else _) = Some _ =>
        destruct c; try discriminate; injection H as <-; eexists; reflexivity
    end.
Qed.

(** The whole schema on a dict: the [filter] key must be there and its
    value must pass [filter_property]. *)
Lemma validate_json_schema_dict (d : gmap string json) :
  validate json_schema "data" (JObject d)
  = (if bool_decide (is_Some (d !! "filter")) then None
     else Some ("data must contain ['filter'] properties"))
    >> match d !! "filter" with
       | Some value => validate filter_property "data.filter" value
       | None => None
       end.
Proof.
  cbn [validate json_schema type minProperties maxProperties required
       properties additionalProperties isinstance forallb and_then orb].
  rewrite andb_true_r.
  destruct (bool_decide (is_Some (d !! "filter"))); [|reflexivity].
  cbn [and_then]. destruct (d !! "filter") as [value|]; [|reflexivity].
  change ("data" +:+ "." +:+ "filter") with "data.filter".
  destruct (validate filter_property "data.filter" value); reflexivity.
Qed.

Lemma validate_json_schema_accepts (doc : json) :
  validate json_schema "data" doc = None <-> filter_document doc.
Proof.
  split.
  - destruct doc as [| | | | |d]; try (cbn; discriminate).
    rewrite validate_json_schema_dict. intros [Hreq Hprop]%and_then_None.
    destruct (d !! "filter") as [value|] eqn:Hfilter.
    + destruct (validate_filter_property_object _ _ Hprop) as [f ->].
      exists d, f. split; [reflexivity|]. split; [exact Hfilter|].
      apply (validate_filter_property "data.filter" f). exact Hprop.
    + rewrite bool_decide_eq_false_2 in Hreq; [discriminate|].
      intros [? ?]. discriminate.
  - intros (d & f & -> & Hfilter & Hentries).
    rewrite validate_json_schema_dict, Hfilter.
    rewrite bool_decide_eq_true_2 by (eexists; reflexivity).
    cbn [and_then]. apply validate_filter_property. exact Hentries.
Qed.

Lemma validate_json_schema_message (doc : json) (message : string) :
  validate json_schema "data" doc = Some message -> begins_with "data" message.
Proof.
  destruct doc as [| | | | |d];
    try (cbn; intros H; injection H as <-; eexists; reflexivity).
  rewrite validate_json_schema_dict. intros [H | H]%and_then_Some.
  - destruct (bool_decide _); [discriminate|].
    injection H as <-. eexists. reflexivity.
  - destruct (d !! "filter") as [value|]; [|discriminate].
    apply validate_filter_property_message in H.
    apply (begins_with_trans "data" "data.filter"); [|exact H].
    exists ".filter". reflexivity.
Qed.

Lemma begins_with_data_not_valid (message : string) :
  begins_with "data" message -> message <> "valid".
Proof. intros [rest ->]. discriminate. Qed.

(** C4, as the code has it. For every query document, [validate_json]
    returns ['valid'] exactly when the document is a dict that has the key
    [filter] with a dict of one to four entries as its value, each entry
    key one of [to], [from], [date], [title] and each entry value a
    string; keys next to [filter] at the top level are not looked at. For
    every other document it returns a description that is not ['valid'] and
    names, from [data] on, what is wrong; a [filter] without entries and a
    [filter] with more than four are described by their count. *)
Theorem validate_json_accepts (doc : json) :
  (validate_json doc = "valid" <-> filter_document doc)
  /\ (~ filter_document doc ->
      validate_json doc <> "valid" /\ begins_with "data" (validate_json doc))
  /\ (forall d, doc = JObject d -> d !! "filter" = Some (JObject ∅) ->
      validate_json doc = "data.filter must contain at least 1 properties")
  /\ (forall d f, doc = JObject d -> d !! "filter" = Some (JObject f) -> 4 < size f ->
      validate_json doc
      = "data.filter must contain less than or equal to 4 properties").
Proof.
  assert (Hiff : validate_json doc = "valid" <-> filter_document doc).
  { rewrite <- validate_json_schema_accepts. unfold validate_json.
    destruct (validate json_schema "data" doc) as [message|] eqn:Hv.
    - split; [|discriminate]. intros ->.
      apply validate_json_schema_message in Hv.
      exfalso. exact (begins_with_data_not_valid _ Hv eq_refl).
    - split; reflexivity. }
  split; [exact Hiff|]. split; [|split].
  - intros Hno.
    assert (Hne : validate_json doc <> "valid") by (rewrite Hiff; exact Hno).
    split; [exact Hne|]. unfold validate_json in *.
    destruct (validate json_schema "data" doc) as [message|] eqn:Hv.
    + exact (validate_json_schema_message _ _ Hv).
    + congruence.
  - intros d -> Hfilter. unfold validate_json.
    rewrite validate_json_schema_dict, Hfilter.
    rewrite bool_decide_eq_true_2 by (eexists; reflexivity).
    reflexivity.
  - intros d f -> Hfilter Hsize. unfold validate_json.
    rewrite validate_json_schema_dict, Hfilter.
    rewrite bool_decide_eq_true_2 by (eexists; reflexivity).
    cbn [and_then validate filter_property type minProperties maxProperties
         isinstance].
    destruct (Nat.ltb_spec (size f) 1); [lia|].
    destruct (Nat.ltb_spec 4 (size f)); [|lia].
    reflexivity.
Qed.

(** ** The filter engine on a store no query has answered from *)

Lemma getroot_own (st : state) (message : ref * element) :
  getparent st !! message.1 = None -> getroot st message = message.2.
Proof. intros H. unfold getroot. rewrite H. reflexivity. Qed.

Lemma check_key_own (st : state) (message : ref * element)
      (s : gmap string json) (key : string) :
  getparent st !! message.1 = None ->
  check_key parse st message s key = check_key parse initial (0, message.2) s key.
Proof.
  intros H. unfold check_key, check_date, check_mssg.
  rewrite (getroot_own st message H).
  rewrite (getroot_own initial (0, message.2)) by reflexivity.
  reflexivity.
Qed.

Lemma all_of_ext (f g : string -> outcome bool) (keys : list string) :
  (forall key, f key = g key) -> all_of f keys = all_of g keys.
Proof.
  intros H. induction keys as [|key keys IH]; simpl; [reflexivity|].
  rewrite H, IH. reflexivity.
Qed.

Lemma q_append (pack : ref) (message : ref * element) (st : state) :
  q (append pack message st) = q st.
Proof. reflexivity. Qed.

Lemma for_message_q (s : gmap string json) (keys : list string) (pack : ref)
      (messages : list (ref * element)) :
  forall st, q (for_message parse s keys pack messages st).2 = q st.
Proof.
  induction messages as [|message rest IH]; intros st; simpl; [reflexivity|].
  destruct (all_of _ keys) as [[|]|]; simpl; try reflexivity; rewrite IH; reflexivity.
Qed.

Lemma apply_filter_q (json_data : json) (st : state) :
  q (apply_filter parse json_data st).2 = q st.
Proof.
  unfold apply_filter.
  destruct json_data as [| | | | |data]; try reflexivity.
  destruct (data !! "filter") as [[| | | | |s]|]; try reflexivity.
  simpl.
  pose proof (for_message_q s (elements (dom paths ∩ dom s)) (next_id st) (q st)
                (new_Messages st).2) as H.
  simpl in H.
  destruct (for_message _ _ _ _ _) as [[[]|] st2]; simpl in *; exact H.
Qed.

(** Every handler of the query endpoint leaves the deque as it is: the
    same elements with the same content, in the same order. What it changes
    is where these elements hang. *)
Lemma findMessages_q (filter_json : json) (st : state) :
  q (findMessages parse filter_json st).2 = q st.
Proof.
  unfold findMessages, isQueue.
  destruct (Nat.eqb (len_q st) 0); [reflexivity|].
  unfold findMessages_func.
  destruct (String.eqb (validate_json filter_json) "valid"); [|reflexivity].
  pose proof (apply_filter_q filter_json st) as H.
  destruct (apply_filter parse filter_json st) as [[[pack|]|] st2]; exact H.
Qed.




(** ** What the test reads from a record that is its own document *)

Lemma simple_field_form (name : string) (type : xs_type) (f : element) :
  type = xs_string \/ type = xs_dateTime ->
  validate_element dateTime_lexical (xs_element_decl name type) f = true ->
  exists x tl, f = Element name [] x [] tl.
Proof.
  destruct f as [ft fa fx fcs ftl]. intros Htype H. simpl in H.
  apply andb_prop in H as [H Hcontent]. apply andb_prop in H as [Htag Hattrib].
  apply String.eqb_eq in Htag. subst ft.
  destruct fa; [|discriminate].
  destruct fcs; [eauto|].
  destruct Htype as [-> | ->]; discriminate.
Qed.

Lemma sequence_form (name : string) (sequence : list xs_element) (e : element) :
  validate_element dateTime_lexical (xs_element_decl name (xs_complexType sequence)) e = true ->
  exists x cs tl,
    e = Element name [] x cs tl
    /\ Forall2 (fun decl c => validate_element dateTime_lexical decl c = true) sequence cs.
Proof.
  intros H. pose proof (validate_element_sequence name sequence e H) as Hcs.
  destruct e as [t a x cs tl]. simpl in H.
  apply andb_prop in H as [H _]. apply andb_prop in H as [Htag Hattrib].
  apply String.eqb_eq in Htag. subst t.
  destruct a; [|discriminate]. eauto.
Qed.

(** A valid document, written out. *)
Lemma validate_xml_form (e : element) :
  validate_xml dateTime_lexical e = true ->
  exists x tl hx htl to to_tl from from_tl timestamp timestamp_tl title title_tl body body_tl,
    e = Element "Message" [] x
          [ Element "Header" [] hx
              [ Element "To" [] to [] to_tl;
                Element "From" [] from [] from_tl;
                Element "Timestamp" [] timestamp [] timestamp_tl;
                Element "Title" [] title [] title_tl;
                Element "Body" [] body [] body_tl ] htl ] tl.
Proof.
  unfold validate_xml, XMLSchema_validate, schema.
  cbn [existsb]. rewrite orb_false_r. intros H.
  apply sequence_form in H as (x & cs & tl & -> & Hcs).
  inversion Hcs as [|d1 header ds1 cs1 Hheader Hnil]; subst. clear Hcs.
  inversion Hnil; subst. clear Hnil.
  apply sequence_form in Hheader as (hx & hcs & htl & -> & Hfields).
  repeat match goal with
         | Hf : Forall2 _ (_ :: _) _ |- _ => inversion Hf; subst; clear Hf
         | Hf : Forall2 _ [] _ |- _ => inversion Hf; subst; clear Hf
         end.
  repeat match goal with
         | Hf : validate_element _ (xs_element_decl _ xs_string) _ = true |- _ =>
             apply simple_field_form in Hf as (? & ? & ->); [|left; reflexivity]
         | Hf : validate_element _ (xs_element_decl _ xs_dateTime) _ = true |- _ =>
             apply simple_field_form in Hf as (? & ? & ->); [|right; reflexivity]
         end.
  repeat eexists.
Qed.

Lemma paths_lookup (key name : string) :
  paths !! key = Some name ->
  (key, name) = ("to", "To") \/ (key, name) = ("from", "From")
  \/ (key, name) = ("title", "Title") \/ (key, name) = ("date", "Timestamp").
Proof.
  intros H. apply elem_of_list_to_map_2 in H. apply list_elem_of_In in H.
  simpl in H. destruct H as [<- | [<- | [<- | [<- | []]]]]; tauto.
Qed.

(** For a valid record that is the root of its own document, [check_mssg]
    returns the text of the record's own header field. *)
Lemma check_mssg_own (st : state) (r : ref) (record : element) (key name : string) :
  validate_xml dateTime_lexical record = true ->
  getparent st !! r = None ->
  paths !! key = Some name ->
  exists f, header_field name record = Some f
            /\ check_mssg st (r, record) key = Return (text f).
Proof.
  intros Hvalid Hparent Hpath.
  unfold check_mssg. rewrite Hpath, (getroot_own st (r, record) Hparent).
  apply validate_xml_form in Hvalid
    as (x & tl & hx & htl & to & to_tl & from & from_tl & timestamp & timestamp_tl
        & title & title_tl & body & body_tl & ->).
  apply paths_lookup in Hpath as [H | [H | [H | H]]];
    injection H as -> ->; eexists; split; reflexivity.
Qed.

(** The [date] entry of the test for such a record: the day of the
    record's own timestamp, as [DD.MM.YYYY], is compared with the filter
    value. *)
Lemma check_key_date_own (st : state) (r : ref) (record : element)
      (s : gmap string json) (value timestamp : string) (dt : datetime) :
  validate_xml dateTime_lexical record = true ->
  getparent st !! r = None ->
  s !! "date" = Some (JString value) ->
  (exists f, header_field "Timestamp" record = Some f /\ text f = Some timestamp) ->
  parse timestamp = Some dt ->
  check_key parse st (r, record) s "date"
  = Return (String.eqb value (strftime_dmY dt)).
Proof.
  intros Hvalid Hparent Hvalue (f & Hf & Htext) Hparse.
  destruct (check_mssg_own st r record "date" "Timestamp" Hvalid Hparent eq_refl)
    as (f' & Hf' & Hcheck).
  rewrite Hf in Hf'. injection Hf' as <-.
  unfold check_key, check_date. rewrite Hvalue, Hcheck. cbn [String.eqb bind].
  change (String.eqb "date" "date") with true. cbv iota.
  rewrite Htext, Hparse. reflexivity.
Qed.

(** ** What the test reads from a record that hangs under an answer *)

(** For a record that was appended to a [Messages] element, [check_mssg]
    returns the text of the header field of the first child of that
    element, whichever of the children it is asked for. *)
Lemma check_mssg_in_answer (st : state) (message first : ref * element) (pack : ref)
      (others : list (ref * element)) (key name : string) :
  getparent st !! message.1 = Some pack ->
  subelements st !! pack = Some (first :: others) ->
  validate_xml dateTime_lexical first.2 = true ->
  paths !! key = Some name ->
  exists f, header_field name first.2 = Some f
            /\ check_mssg st message key = Return (text f).
Proof.
  intros Hparent Hpack Hvalid Hpath.
  unfold check_mssg, getroot. rewrite Hpath, Hparent, Hpack.
  destruct first as [r0 record]. cbn [snd default map] in *.
  apply validate_xml_form in Hvalid
    as (x & tl & hx & htl & to & to_tl & from & from_tl & timestamp & timestamp_tl
        & title & title_tl & body & body_tl & ->).
  apply paths_lookup in Hpath as [H | [H | [H | H]]];
    injection H as -> ->; eexists; split; reflexivity.
Qed.

End Properties.

(** * The properties at concrete inputs *)

Lemma sendMessage_no_duplicates_witness :
  parse_known known_documents (tostring hello) = Some hello
  /\ validate_xml isodatetime hello = true
  /\ (send hello (send hello initial).2).1 = DuplicateError
  /\ len_q (send hello (send hello initial).2).2 = 1.
Proof.
  split; [reflexivity|]. split; [reflexivity|].
  destruct (sendMessage_no_duplicates (parse_known known_documents) isodatetime
              (tostring hello) hello initial eq_refl eq_refl)
    as (_ & _ & Hsecond & _ & Hsize).
  split; [exact Hsecond|].
  apply Hsize. intros (r & [] & _).
Defined.

Lemma sendMessage_parse_error_witness :
  parse_known known_documents "<Message><Header>" = None
  /\ send_raw "<Message><Header>" two_messages = (ParseError, two_messages).
Proof.
  split; [reflexivity|].
  apply (sendMessage_parse_error (parse_known known_documents) isodatetime
           "<Message><Header>" two_messages eq_refl).
Defined.

Lemma empty_store_EmptyError_witness :
  q initial = []
  /\ getMessage initial = (EmptyError, initial)
  /\ find [("to", "x")] initial = (EmptyError, initial).
Proof.
  split; [reflexivity|].
  destruct (empty_store_EmptyError isoparse (query [("to", "x")]) initial eq_refl)
    as (Hget & Hfind & _).
  split; [exact Hget | exact Hfind].
Defined.

Lemma empty_store_before_filter_validation_witness :
  q initial = []
  /\ validate_json (JString "to") = "data must be object"
  /\ findMessages isoparse (JString "to") initial = (EmptyError, initial).
Proof.
  split; [reflexivity|]. split; [reflexivity|].
  apply (empty_store_before_filter_validation isoparse (JString "to") initial eq_refl).
Defined.

Lemma hello_missing_Body : missing_Body hello hello_without_Body.
Proof.
  exists (Element "Header" [] None
            [ field "To" "x"; field "From" "y"; field "Timestamp" "2023-01-01T00:00:00Z";
              field "Title" "hello"; field "Body" "world" ] None),
         [ field "To" "x"; field "From" "y"; field "Timestamp" "2023-01-01T00:00:00Z";
           field "Title" "hello" ],
         (field "Body" "world").
  repeat split.
Qed.

Lemma sendMessage_schema_error_witness :
  parse_known known_documents (tostring hello_without_Body) = Some hello_without_Body
  /\ send hello_without_Body two_messages = (SchemaError, two_messages).
Proof.
  split; [reflexivity|].
  destruct (sendMessage_schema_error (parse_known known_documents) isodatetime
              (tostring hello_without_Body) hello_without_Body two_messages eq_refl)
    as [_ Hshape].
  destruct (Hshape hello eq_refl (or_introl hello_missing_Body)) as (_ & Hsend & _).
  exact Hsend.
Defined.

Lemma fifo_order_witness :
  Forall2 (fun body M => parse_known known_documents body = Some M) may_bodies may_messages
  /\ Forall (fun M => validate_xml isodatetime M = true) may_messages
  /\ NoDup (map tostring may_messages)
  /\ records two_messages = may_messages
  /\ records (serve [getMessage] two_messages).2 = [second_of_may]
  /\ records (serve [getMessage; getMessage] two_messages).2 = [].
Proof.
  assert (Hparse : Forall2 (fun body M => parse_known known_documents body = Some M)
                           may_bodies may_messages)
    by (repeat constructor).
  assert (Hvalid : Forall (fun M => validate_xml isodatetime M = true) may_messages)
    by (repeat constructor).
  assert (Hnodup : NoDup (map tostring may_messages))
    by (refine (bool_decide_unpack _ _); vm_compute; exact I).
  destruct (fifo_order (parse_known known_documents) isodatetime may_bodies may_messages
              Hparse Hvalid Hnodup) as (_ & Hrecords & Hconsume & Hempty).
  split; [exact Hparse|]. split; [exact Hvalid|]. split; [exact Hnodup|].
  split; [exact Hrecords|]. split; [|exact Hempty].
  destruct (Hconsume 1) as (_ & H & _); [simpl; lia | exact H].
Defined.

Lemma validate_json_accepts_witness :
  ~ filter_document (query [])
  /\ validate_json (query []) = "data.filter must contain at least 1 properties"
  /\ validate_json (query [("to", "x")]) = "valid".
Proof.
  assert (Hempty : validate_json (query [])
                   = "data.filter must contain at least 1 properties").
  { destruct (validate_json_accepts (query [])) as (_ & _ & H & _).
    apply (H {[ "filter" := JObject ∅ ]}); reflexivity. }
  split; [|split; [exact Hempty | reflexivity]].
  intros Hdoc. apply (validate_json_accepts (query [])) in Hdoc.
  rewrite Hempty in Hdoc. discriminate.
Defined.

(** C4 as it is worded fails. The document
    [{"filter": {"to": "a"}, "note": null}] has a second top-level key, and
    [validate_json] returns ['valid'] for it. *)
Lemma validate_json_allows_other_top_level_keys :
  ~ (validate_json query_with_note = "valid" <-> filter_document_only query_with_note).
Proof.
  intros [Hvalid _].
  destruct (Hvalid eq_refl) as (f & Hdoc & _).
  apply (f_equal (fun j => match j with JObject d => d !! "note" | _ => None end)) in Hdoc.
  vm_compute in Hdoc. discriminate.
Qed.

(** ** The scenarios of the specification on a store as it was sent *)

(** Submit, submit again, query twice, consume twice. *)
Example scenario :
  (serve [ send hello; send hello; find [("to", "x")]; find [("to", "z")];
           getMessage; getMessage ] initial).1
  = [ accepted; DuplicateError;
      make_response (tostring_doctype (Element "Messages" [] None [hello] None) DOCTYPE) 200;
      NoMatchError; removed; EmptyError ].
Proof. vm_compute. reflexivity. Qed.

(** All keys of a filter must match: of two records to [a], the filter
    [{"to": "a", "title": "x"}] finds the one titled [x]. *)
Example filter_and_semantics :
  (find [("to", "a"); ("title", "x")] two_messages).1
  = make_response (tostring_doctype (Element "Messages" [] None [first_of_may] None) DOCTYPE) 200.
Proof. vm_compute. reflexivity. Qed.

(** The timestamp [2023-05-01T14:30:00Z] matches the day [01.05.2023] and
    not the day [02.05.2023]. *)
Example date_normalization :
  let stored := (send first_of_may initial).2 in
  (find [("date", "01.05.2023")] stored).1
  = make_response (tostring_doctype (Element "Messages" [] None [first_of_may] None) DOCTYPE) 200
  /\ (find [("date", "02.05.2023")] stored).1 = NoMatchError.
Proof. vm_compute. split; reflexivity. Qed.

(** ** Queries after a query

    [two_messages_queried] is the store after one query that matched both
    records. The queue is as before, but both elements now hang under the
    [Messages] element of that answer, and the absolute path of
    [check_mssg] starts at that element: for either record it finds the
    fields of [first_of_may], the first child. *)

(** C3 at a failing input. The filter [{"title": "y"}] is valid and
    [second_of_may], and no other record of the store, satisfies it. Asked
    of the store as it was sent, the answer holds [second_of_may]; asked
    after the query [{"to": "a"}], the answer is [NoMatchError]. *)
Theorem findMessages_misses_match_after_query :
  records two_messages_queried = [first_of_may; second_of_may]
  /\ validate_json (query [("title", "y")]) = "valid"
  /\ List.filter (satisfies isoparse [("title", "y")]) (records two_messages_queried)
     = [second_of_may]
  /\ (find [("title", "y")] two_messages).1
     = make_response
         (tostring_doctype (Element "Messages" [] None [second_of_may] None) DOCTYPE) 200
  /\ (find [("title", "y")] two_messages_queried).1 = NoMatchError.
Proof.
  vm_compute. repeat split.
Qed.

(** C2 at a failing input. [second_of_may] is stored and the day of its
    timestamp is [02.05.2023]. After the query [{"to": "a"}], [check_date]
    for this record gives [01.05.2023], the day of [first_of_may], so the
    record does not match the [date] value [02.05.2023] and the query for
    that day finds nothing. *)
Theorem check_date_reads_first_record_of_answer :
  In (1, second_of_may) (q two_messages_queried)
  /\ record_field "Timestamp" second_of_may = Some "2023-05-02T09:00:00Z"
  /\ normalized_date isoparse second_of_may = Some "02.05.2023"
  /\ check_date isoparse two_messages_queried (1, second_of_may) "date"
     = Return "01.05.2023"
  /\ check_key isoparse two_messages_queried (1, second_of_may)
               {[ "date" := JString "02.05.2023" ]} "date" = Return false
  /\ (find [("date", "02.05.2023")] two_messages_queried).1 = NoMatchError.
Proof.
  vm_compute. repeat split. right. left. reflexivity.
Qed.

(** C9 at a failing input. The query [{"to": "a"}] leaves the queue as it
    was, but it moves the stored elements: before it [second_of_may] is the
    root of its own document, after it the root of its document is the
    [Messages] element of the answer. A later query is answered
    differently because of it. *)
Theorem findMessages_moves_stored_elements :
  q two_messages_queried = q two_messages
  /\ getroot two_messages (1, second_of_may) = second_of_may
  /\ getroot two_messages_queried (1, second_of_may)
     = Element "Messages" [] None [first_of_may; second_of_may] None
  /\ (find [("title", "y")] two_messages).1
     <> (find [("title", "y")] (find [("to", "a")] two_messages).2).1.
Proof.
  vm_compute. repeat split. discriminate.
Qed.

(** A consumed record still answers. After the query [{"to": "a"}] and one
    consumption the store holds [second_of_may] alone, titled [y]. The
    element of the consumed [first_of_may] is still the first child of the
    old [Messages] element, so the test of [second_of_may] reads the title
    [x] from it: the query [{"title": "x"}] returns [second_of_may]. *)
Example findMessages_reads_consumed_record :
  let st := (serve [getMessage] two_messages_queried).2 in
  records st = [second_of_may]
  /\ record_field "Title" second_of_may = Some "y"
  /\ (find [("title", "x")] st).1
     = make_response
         (tostring_doctype (Element "Messages" [] None [second_of_may] None) DOCTYPE) 200.
Proof. vm_compute. repeat split. Qed.

(** An empty element has the text [None], which no filter value equals:
    the record [to_nobody], whose [To] is the empty string, is not found by
    the filter [{"to": ""}]. *)
Example empty_field_matches_no_value :
  (serve [send to_nobody; find [("to", "")]] initial).1 = [accepted; NoMatchError]
  /\ record_field "To" to_nobody = Some "".
Proof. vm_compute. split; reflexivity. Qed.

(** * Further properties of the handlers *)

Section HandlerProperties.

Variable fromstring : string -> option element.
Variable dateTime_lexical : string -> bool.
Variable parse : string -> option datetime.

(** ** What one request does to the queue *)

(** The four ways [sendMessage] ends. *)
Lemma sendMessage_cases (request_data : string) (st : state) :
  sendMessage fromstring dateTime_lexical request_data st = (ParseError, st)
  \/ sendMessage fromstring dateTime_lexical request_data st = (SchemaError, st)
  \/ sendMessage fromstring dateTime_lexical request_data st = (DuplicateError, st)
  \/ exists M,
      fromstring request_data = Some M
      /\ validate_xml dateTime_lexical M = true
      /\ ~ stored M st
      /\ sendMessage fromstring dateTime_lexical request_data st
         = (accepted,
            {| q := (q st ++ [(next_id st, M)])%list; getparent := getparent st;
               subelements := subelements st; next_id := S (next_id st) |}).
Proof.
  unfold sendMessage.
  destruct (fromstring request_data) as [M|] eqn:Hparse; [|left; reflexivity].
  destruct (validate_xml dateTime_lexical M) eqn:Hvalid; [|right; left; reflexivity].
  destruct (negb (Nat.eqb (len_q st) 0) && existsb _ (q st)) eqn:Hscan.
  - right. right. left. reflexivity.
  - right. right. right. exists M.
    split; [reflexivity|]. split; [exact Hvalid|]. split; [|reflexivity].
    intros Hstored. apply duplicate_scan in Hstored. congruence.
Qed.

(** The three ways the body of [findMessages] ends for a document that
    [validate_json] accepts, and the one way for any other document. *)
Lemma findMessages_func_status (filter_json : json) (st : state) :
  let r := (findMessages_func parse filter_json st).1 in
  status r = 200 \/ status r = 404 \/ status r = 400 \/ status r = 500.
Proof.
  unfold findMessages_func.
  destruct (String.eqb (validate_json filter_json) "valid").
  - destruct (apply_filter parse filter_json st) as [[[pack|]|] st2]; simpl; auto.
  - simpl. auto.
Qed.

(** X1. For every state and every request body, [sendMessage] keeps the
    stored records and their order: either the answer is [accepted] and the
    records are the old ones followed by the parsed document, which is
    valid and was not stored, or the answer is one of [ParseError],
    [SchemaError], [DuplicateError] and the state is the one before. No
    request to this route removes, replaces or reorders a record. *)
Theorem sendMessage_only_appends (request_data : string) (st : state) :
  let r := sendMessage fromstring dateTime_lexical request_data st in
  (exists M,
      fromstring request_data = Some M
      /\ validate_xml dateTime_lexical M = true
      /\ ~ stored M st
      /\ r.1 = accepted
      /\ records r.2 = (records st ++ [M])%list)
  \/ ((r.1 = ParseError \/ r.1 = SchemaError \/ r.1 = DuplicateError) /\ r.2 = st).
Proof.
  destruct (sendMessage_cases request_data st) as [H | [H | [H | (M & Hp & Hv & Hs & H)]]];
    cbv zeta; rewrite H; cbn [fst snd].
  - right. auto.
  - right. auto.
  - right. auto.
  - left. exists M. repeat split; try assumption.
    unfold records. cbn [q]. rewrite map_app. reflexivity.
Qed.

(** X2. For every state, [getMessage] answers [EmptyError] and changes
    nothing when the queue is empty, and otherwise answers [removed] and
    drops exactly the head: the records that remain are the old ones
    without the first, in their order. The [popleft] behind the guard is
    never reached on an empty deque, so the route never answers with the
    status 500. *)
Theorem getMessage_removes_head (st : state) :
  ((records st = [] /\ getMessage st = (EmptyError, st))
   \/ (exists oldest rest,
         records st = oldest :: rest
         /\ (getMessage st).1 = removed
         /\ records (getMessage st).2 = rest
         /\ len_q (getMessage st).2 = length rest))
  /\ status (getMessage st).1 <> 500.
Proof.
  unfold records. destruct (q st) as [|item rest] eqn:Hq.
  - rewrite (isQueue_empty getMessage_func st Hq : getMessage st = _).
    split; [|discriminate]. left. split; reflexivity.
  - rewrite (getMessage_head item rest st Hq). cbn [fst snd q len_q].
    split; [|discriminate]. right.
    exists item.2, (map snd rest). unfold len_q. cbn [q].
    rewrite length_map. repeat split.
Qed.

(** X3. For every state and every query document, valid or not, and also
    when the filter loop ends in an exception, [findMessages] leaves the
    deque as it is: the same records in the same order, so the size of the
    store and what the next [getMessage] removes do not depend on the
    queries made. *)
Theorem findMessages_keeps_queue (filter_json : json) (st : state) :
  records (findMessages parse filter_json st).2 = records st
  /\ len_q (findMessages parse filter_json st).2 = len_q st
  /\ (getMessage (findMessages parse filter_json st).2).1 = (getMessage st).1
  /\ records (getMessage (findMessages parse filter_json st).2).2
     = records (getMessage st).2.
Proof.
  pose proof (findMessages_q parse filter_json st) as Hq.
  set (st' := (findMessages parse filter_json st).2) in *.
  unfold records, len_q. rewrite Hq.
  split; [reflexivity|]. split; [reflexivity|].
  destruct (q st) as [|item rest] eqn:Hst.
  - rewrite (isQueue_empty getMessage_func st Hst : getMessage st = _).
    rewrite (isQueue_empty getMessage_func st' Hq : getMessage st' = _).
    cbn [fst snd]. rewrite Hq, Hst. split; reflexivity.
  - rewrite (getMessage_head item rest st Hst), (getMessage_head item rest st' Hq).
    split; reflexivity.
Qed.

(** X4. On a non-empty store, a query document that [validate_json] does
    not accept is answered with the status 400 and the validator's message
    as the error text, and the state is the one before the request: no
    [Messages] element is made and no stored element is moved. *)
Theorem findMessages_invalid_filter (filter_json : json) (st : state) :
  q st <> [] ->
  ~ filter_document filter_json ->
  findMessages parse filter_json st
  = (FilterValidationError (validate_json filter_json), st)
  /\ begins_with "data" (validate_json filter_json).
Proof.
  intros Hq Hdoc.
  assert (Hmessage : exists message,
             fastjsonschema.validate json_schema "data" filter_json = Some message).
  { destruct (fastjsonschema.validate json_schema "data" filter_json) as [message|] eqn:Hv.
    - eauto.
    - apply validate_json_schema_accepts in Hv. contradiction. }
  destruct Hmessage as [message Hv].
  pose proof (validate_json_schema_message _ _ Hv) as Hbegins.
  unfold findMessages. rewrite isQueue_nonempty by exact Hq.
  unfold findMessages_func, validate_json. rewrite Hv.
  destruct (String.eqb message "valid") eqn:Heq.
  - apply String.eqb_eq in Heq. subst message.
    exfalso. exact (begins_with_data_not_valid _ Hbegins eq_refl).
  - split; [reflexivity | exact Hbegins].
Qed.

(** ** What holds in every state the process reaches *)

Lemma records_after_handle (r : request) (st : state) :
  records (handle fromstring dateTime_lexical parse r st).2 = records st
  \/ (exists M, validate_xml dateTime_lexical M = true
               /\ ~ stored M st
               /\ records (handle fromstring dateTime_lexical parse r st).2
                  = (records st ++ [M])%list)
  \/ (exists oldest,
        records st
        = oldest :: records (handle fromstring dateTime_lexical parse r st).2).
Proof.
  destruct r as [request_data | | filter_json]; cbn [handle].
  - destruct (sendMessage_cases request_data st)
      as [H | [H | [H | (M & Hp & Hv & Hs & H)]]]; rewrite H; cbn [snd]; auto.
    right. left. exists M. repeat split; try assumption.
    unfold records. cbn [q]. rewrite map_app. reflexivity.
  - unfold records. destruct (q st) as [|item rest] eqn:Hq.
    + left. rewrite (isQueue_empty getMessage_func st Hq : getMessage st = _).
      cbn [snd]. rewrite Hq. reflexivity.
    + right. right. rewrite (getMessage_head item rest st Hq).
      exists item.2. reflexivity.
  - left. unfold records. rewrite findMessages_q. reflexivity.
Qed.

(** X5. In every state the process reaches from its start, whatever
    requests were made, every stored record is valid against the message
    schema and no two stored records have the same serialized content. *)
Theorem reachable_store_invariant (st : state) :
  reachable fromstring dateTime_lexical parse st ->
  Forall (fun M => validate_xml dateTime_lexical M = true) (records st)
  /\ NoDup (map tostring (records st)).
Proof.
  induction 1 as [|r st Hreach [IHvalid IHnodup]].
  - split; constructor.
  - destruct (records_after_handle r st) as [H | [(M & Hv & Hs & H) | (oldest & H)]].
    + rewrite H. split; assumption.
    + rewrite H. split.
      * apply Forall_app. split; [exact IHvalid | constructor; [exact Hv | constructor]].
      * rewrite map_app. apply NoDup_app. split; [exact IHnodup|].
        split; [|apply NoDup_singleton].
        intros s Hin Hs'. apply list_elem_of_In in Hin.
        apply list_elem_of_In in Hs'. destruct Hs' as [<- | []].
        apply in_map_iff in Hin as (r0 & Heq & Hin).
        apply Hs. exists r0. split; assumption.
    + rewrite H in IHvalid, IHnodup. cbn [map] in IHnodup.
      apply Forall_cons in IHvalid as [_ IHvalid].
      apply NoDup_cons in IHnodup as [_ IHnodup].
      split; assumption.
Qed.

Lemma len_q_after_handle (r : request) (st : state) :
  let answer := handle fromstring dateTime_lexical parse r st in
  len_q answer.2 + count_status 204 [answer.1]
  = len_q st + count_status 201 [answer.1].
Proof.
  destruct r as [request_data | | filter_json]; cbn [handle]; cbv zeta.
  - destruct (sendMessage_cases request_data st)
      as [H | [H | [H | (M & Hp & Hv & Hs & H)]]]; rewrite H; cbn; try lia.
    unfold len_q. cbn [q]. rewrite length_app. cbn. lia.
  - destruct (q st) as [|item rest] eqn:Hq.
    + rewrite (isQueue_empty getMessage_func st Hq : getMessage st = _). cbn. lia.
    + rewrite (getMessage_head item rest st Hq). unfold len_q. rewrite Hq. cbn. lia.
  - pose proof (findMessages_q parse filter_json st) as Hq.
    unfold len_q. rewrite Hq.
    unfold findMessages, isQueue.
    destruct (Nat.eqb (len_q st) 0); [cbn; lia|].
    pose proof (findMessages_func_status filter_json st) as Hstatus. cbv zeta in Hstatus.
    unfold count_status. cbn [List.filter].
    destruct Hstatus as [-> | [-> | [-> | ->]]]; cbn; lia.
Qed.

Lemma count_status_cons (code : nat) (r : response) (rs : list response) :
  count_status code (r :: rs) = count_status code [r] + count_status code rs.
Proof.
  unfold count_status. cbn [List.filter].
  destruct (Nat.eqb (status r) code); reflexivity.
Qed.

(** X6. For every state and every sequence of requests served from it, the
    size of the store afterwards is the size before plus the number of
    answers with the status 201 minus the number of answers with the status
    204: every accepted submission adds one record, every acknowledged
    consumption removes one, and no other answer goes with a change of the
    size. *)
Theorem store_size_accounting (requests : list request) (st : state) :
  let served := serve (map (handle fromstring dateTime_lexical parse) requests) st in
  len_q served.2 + count_status 204 served.1
  = len_q st + count_status 201 served.1.
Proof.
  revert st. induction requests as [|r requests IH]; intros st; cbv zeta.
  - reflexivity.
  - cbn [map serve].
    pose proof (len_q_after_handle r st) as Hstep. cbv zeta in Hstep.
    destruct (handle fromstring dateTime_lexical parse r st) as [answer st1].
    specialize (IH st1). cbv zeta in IH.
    destruct (serve (map _ requests) st1) as [answers st2].
    cbn [fst snd] in *.
    rewrite (count_status_cons 204), (count_status_cons 201). lia.
Qed.

(** ** The documents the schema admits *)


(** ** The first query on a store *)




(** ** The identities in use *)

Lemma for_message_frame (s : gmap string json) (keys : list string) (pack : ref)
      (messages : list (ref * element)) :
  forall st,
    next_id (for_message parse s keys pack messages st).2 = next_id st
    /\ forall x p, getparent (for_message parse s keys pack messages st).2 !! x = Some p ->
                   getparent st !! x = Some p \/ (p = pack /\ In x (map fst messages)).
Proof.
  induction messages as [|message rest IH]; intros st; cbn [for_message].
  - split; [reflexivity | auto].
  - destruct (all_of _ keys) as [[|]|]; cbn [snd].
    + destruct (IH (append pack message st)) as [Hnext Hparent].
      split; [exact Hnext|].
      intros x p Hx. destruct (Hparent x p Hx) as [H | [-> H]].
      * unfold append in H. cbn [getparent] in H.
        destruct (decide (x = message.1)) as [-> | Hne].
        -- rewrite lookup_insert_eq in H. injection H as <-.
           right. split; [reflexivity | left; reflexivity].
        -- rewrite lookup_insert_ne in H by congruence. left. exact H.
      * right. split; [reflexivity | right; exact H].
    + destruct (IH st) as [Hnext Hparent]. split; [exact Hnext|].
      intros x p Hx. destruct (Hparent x p Hx) as [H | [-> H]]; [left; exact H|].
      right. split; [reflexivity | right; exact H].
    + split; [reflexivity | auto].
Qed.

Lemma findMessages_state (filter_json : json) (st : state) :
  (findMessages parse filter_json st).2 = st
  \/ exists s keys,
      (findMessages parse filter_json st).2
      = (for_message parse s keys (next_id st) (q st) (new_Messages st).2).2.
Proof.
  unfold findMessages, isQueue.
  destruct (Nat.eqb (len_q st) 0); [left; reflexivity|].
  unfold findMessages_func.
  destruct (String.eqb (validate_json filter_json) "valid"); [|left; reflexivity].
  unfold apply_filter.
  destruct filter_json as [| | | | |data]; try (left; reflexivity).
  destruct (data !! "filter") as [[| | | | |s]|]; try (left; reflexivity).
  right. exists s, (elements (dom paths ∩ dom s)).
  cbn [new_Messages snd].
  destruct (for_message _ _ _ _ _ _) as [[[]|] st2]; cbn [snd].
  - destruct (default [] _); reflexivity.
  - reflexivity.
Qed.

Lemma identities_fresh_handle (r : request) (st : state) :
  identities_fresh st ->
  identities_fresh (handle fromstring dateTime_lexical parse r st).2.
Proof.
  intros (Hnodup & Hq & Hparent).
  destruct r as [request_data | | filter_json]; cbn [handle].
  - destruct (sendMessage_cases request_data st)
      as [H | [H | [H | (M & Hp & Hv & Hs & H)]]]; rewrite H; cbn [snd];
      try (split; [exact Hnodup | split; [exact Hq | exact Hparent]]).
    unfold identities_fresh. cbn [q next_id getparent].
    split; [|split].
    + rewrite map_app. apply NoDup_app. split; [exact Hnodup|].
      split; [|apply NoDup_singleton].
      intros x Hin Hx. apply list_elem_of_In in Hin, Hx.
      destruct Hx as [<- | []].
      apply in_map_iff in Hin as (m & Heq & Hin). apply Hq in Hin. cbn in Heq. lia.
    + intros m Hin. apply in_app_or in Hin as [Hin | [<- | []]].
      * apply Hq in Hin. lia.
      * cbn. lia.
    + intros x p Hx. apply Hparent in Hx. lia.
  - destruct (q st) as [|item rest] eqn:Hst.
    + rewrite (isQueue_empty getMessage_func st Hst : getMessage st = _). cbn [snd].
      unfold identities_fresh. rewrite Hst. auto.
    + rewrite (getMessage_head item rest st Hst). unfold identities_fresh.
      cbn [snd q next_id getparent]. cbn [map] in Hnodup.
      apply NoDup_cons in Hnodup as [_ Hnodup].
      split; [exact Hnodup|]. split; [|exact Hparent].
      intros m Hin. apply Hq. right. exact Hin.
  - pose proof (findMessages_q parse filter_json st) as Hsame.
    destruct (findMessages_state filter_json st) as [H | (s & keys & H)].
    + rewrite H. split; [exact Hnodup | split; [exact Hq | exact Hparent]].
    + unfold identities_fresh. rewrite Hsame. rewrite H.
      destruct (for_message_frame s keys (next_id st) (q st) (new_Messages st).2)
        as [Hnext Hframe].
      rewrite Hnext. cbn [new_Messages snd next_id].
      split; [exact Hnodup|]. split.
      * intros m Hin. apply Hq in Hin. lia.
      * intros x p Hx. apply Hframe in Hx as [Hx | [-> Hx]].
        -- cbn [new_Messages snd getparent] in Hx. apply Hparent in Hx. lia.
        -- apply in_map_iff in Hx as (m & <- & Hin). apply Hq in Hin. lia.
Qed.

Lemma reachable_identities_fresh (st : state) :
  reachable fromstring dateTime_lexical parse st -> identities_fresh st.
Proof.
  induction 1 as [|r st Hreach IH].
  - split; [constructor|]. split; [intros m []|].
    intros x p Hx. unfold initial in Hx. cbn [getparent] in Hx.
    rewrite lookup_empty in Hx. discriminate.
  - apply identities_fresh_handle. exact IH.
Qed.

(** ** The first query on a store, continued *)

Lemma filter_of_lookup (entries : list (string * string)) (key : string) (value : json) :
  NoDup (map fst entries) ->
  filter_of entries !! key = Some value
  <-> exists v, value = JString v /\ In (key, v) entries.
Proof.
  intros Hnodup. unfold filter_of.
  rewrite <- elem_of_list_to_map.
  - rewrite list_elem_of_In, in_map_iff. split.
    + intros ([k v] & [= <- <-] & Hin). exists v. split; [reflexivity | exact Hin].
    + intros (v & -> & Hin). exists (key, v). split; [reflexivity | exact Hin].
  - change (NoDup (map fst (map (fun kv : string * string => (kv.1, JString kv.2)) entries))).
    rewrite map_map. cbn [fst]. exact Hnodup.
Qed.



Lemma reachable_records_valid (st : state) :
  reachable fromstring dateTime_lexical parse st ->
  Forall (fun M => validate_xml dateTime_lexical M = true) (records st).
Proof.
  induction 1 as [|r st Hreach IH]; [constructor|].
  destruct (records_after_handle r st) as [H | [(M & Hv & _ & H) | (oldest & H)]].
  - rewrite H. exact IH.
  - rewrite H. apply Forall_app. split; [exact IH | constructor; [exact Hv | constructor]].
  - rewrite H in IH. apply Forall_cons in IH as [_ IH]. exact IH.
Qed.


(** ** What moves a stored element *)

Lemma append_last (pack : ref) (message : ref * element) (st : state)
      (found : list (ref * element)) :
  subelements st !! pack = Some found ->
  exists l, subelements (append pack message st) !! pack = Some (l ++ [message])%list.
Proof.
  intros Hpack. unfold append. cbn [subelements].
  rewrite lookup_alter_eq.
  destruct (getparent st !! message.1) as [old|].
  - destruct (decide (old = pack)) as [-> | Hne].
    + rewrite lookup_alter_eq, Hpack. cbn. eauto.
    + rewrite lookup_alter_ne by exact Hne. rewrite Hpack. cbn. eauto.
  - rewrite Hpack. cbn. eauto.
Qed.

(** The filter loop either appends nothing, and then no element has a new
    parent, or leaves the [Messages] element with a child. *)
Lemma for_message_appended (s : gmap string json) (keys : list string) (pack : ref)
      (messages : list (ref * element)) :
  forall (st : state) (found : list (ref * element)),
    subelements st !! pack = Some found ->
    (getparent (for_message parse s keys pack messages st).2 = getparent st
     /\ subelements (for_message parse s keys pack messages st).2 !! pack = Some found)
    \/ exists found',
        subelements (for_message parse s keys pack messages st).2 !! pack = Some found'
        /\ found' <> [].
Proof.
  induction messages as [|message rest IH]; intros st found Hpack; cbn [for_message].
  - left. split; [reflexivity | exact Hpack].
  - destruct (all_of _ keys) as [[|]|]; cbn [snd].
    + destruct (append_last pack message st found Hpack) as [l Hl].
      right. destruct (IH _ _ Hl) as [[_ H] | H]; [|exact H].
      exists (l ++ [message])%list. split; [exact H|].
      intros Hnil. apply app_eq_nil in Hnil as [_ Hnil]. discriminate.
    + apply IH. exact Hpack.
    + left. split; [reflexivity | exact Hpack].
Qed.

(** X9. In a state the process has reached, a request that is answered
    with a status other than 200 and 500 leaves every stored element where
    it is: after a submission, accepted or not, after a consumption, and
    after a query that is rejected or finds nothing, a store that no query
    has answered from is still one. *)
Theorem untouched_preserved (r : request) (st : state) :
  reachable fromstring dateTime_lexical parse st ->
  untouched st ->
  status (handle fromstring dateTime_lexical parse r st).1 <> 200 ->
  status (handle fromstring dateTime_lexical parse r st).1 <> 500 ->
  untouched (handle fromstring dateTime_lexical parse r st).2.
Proof.
  intros Hreach Hown H200 H500.
  pose proof (reachable_identities_fresh st Hreach) as (_ & _ & Hparent).
  destruct r as [request_data | | filter_json]; cbn [handle] in *.
  - destruct (sendMessage_cases request_data st)
      as [H | [H | [H | (M & Hp & Hv & Hs & H)]]]; rewrite H; cbn [snd]; try exact Hown.
    intros message Hin. cbn [q getparent] in *.
    apply in_app_or in Hin as [Hin | [<- | []]]; [apply Hown; exact Hin|].
    cbn [fst]. destruct (getparent st !! next_id st) as [pack|] eqn:Hp'; [|reflexivity].
    apply Hparent in Hp'. lia.
  - destruct (q st) as [|item rest] eqn:Hst.
    + rewrite (isQueue_empty getMessage_func st Hst : getMessage st = _). exact Hown.
    + rewrite (getMessage_head item rest st Hst). cbn [snd].
      intros message Hin. cbn [q getparent] in *. apply Hown. rewrite Hst. right. exact Hin.
  - revert H200 H500. unfold findMessages, isQueue.
    destruct (Nat.eqb (len_q st) 0); [intros; exact Hown|].
    unfold findMessages_func.
    destruct (String.eqb (validate_json filter_json) "valid"); [|intros; exact Hown].
    unfold apply_filter.
    destruct filter_json as [| | | | |data]; try (intros; exact Hown).
    destruct (data !! "filter") as [[| | | | |s]|]; try (intros; exact Hown).
    cbn [new_Messages].
    set (st1 := {| q := q st; getparent := getparent st;
                   subelements := <[next_id st := []]> (subelements st);
                   next_id := S (next_id st) |}).
    pose proof (for_message_q parse s (elements (dom paths ∩ dom s)) (next_id st) (q st) st1)
      as Hq.
    destruct (for_message_appended s (elements (dom paths ∩ dom s)) (next_id st) (q st)
                st1 []) as [[Hsame Hnone] | (found' & Hfound & Hne)].
    + unfold st1. cbn [subelements]. apply lookup_insert_eq.
    + destruct (for_message _ _ _ _ _ _) as [[[]|] st2]; cbn [fst snd] in *.
      * rewrite Hnone. cbn [default id fst snd]. intros _ _ message Hin.
        rewrite Hq in Hin. rewrite Hsame. apply Hown. exact Hin.
      * intros _ H. exfalso. apply H. reflexivity.
    + destruct (for_message _ _ _ _ _ _) as [[[]|] st2]; cbn [fst snd] in *.
      * rewrite Hfound. cbn [default id fst snd]. destruct found' as [|m l]; [congruence|].
        intros H _. exfalso. apply H. reflexivity.
      * intros _ H. exfalso. apply H. reflexivity.
Qed.

(** ** What a query can answer *)



(** ** A timestamp that [parse] does not read *)

Lemma all_of_Raised (f : string -> outcome bool) (keys : list string) (key : string) :
  In key keys -> f key = Raised -> all_of f keys = Raised.
Proof.
  intros Hin Hkey. induction keys as [|k keys IH]; [destruct Hin|].
  cbn [all_of]. destruct Hin as [-> | Hin].
  - rewrite Hkey. reflexivity.
  - rewrite (IH Hin). destruct (f k); reflexivity.
Qed.

Lemma check_date_unreadable (record : element) :
  validate_xml dateTime_lexical record = true ->
  normalized_date parse record = None ->
  check_date parse initial (0, record) "date" = Raised.
Proof.
  intros Hvalid Hdate.
  destruct (check_mssg_own fromstring dateTime_lexical parse initial 0 record
              "date" "Timestamp" Hvalid eq_refl eq_refl) as (f & Hf & Hcheck).
  unfold check_date. unfold ref in *. rewrite Hcheck. cbn [bind].
  unfold normalized_date, record_field in Hdate. rewrite Hf in Hdate.
  cbn [fmap option_fmap option_map] in Hdate.
  destruct (text f) as [timestamp|]; [|reflexivity].
  cbn [from_option] in Hdate.
  destruct (parse timestamp); [discriminate | reflexivity].
Qed.

Lemma for_message_Raised (s : gmap string json) (pack : ref) :
  forall (messages : list (ref * element)) (st : state),
    NoDup (map fst messages) ->
    (forall message, In message messages -> getparent st !! message.1 = None) ->
    (exists message, In message messages /\ match_own parse s message.2 = Raised) ->
    (for_message parse s (elements (dom paths ∩ dom s)) pack messages st).1 = Raised.
Proof.
  induction messages as [|message rest IH]; intros st Hnodup Hown (bad & Hin & Hbad).
  - destruct Hin.
  - cbn [for_message].
    pose proof (Hown message (or_introl eq_refl)) as Hparent.
    rewrite (all_of_ext _ _ _ (fun key => check_key_own parse st message s key Hparent)).
    fold (match_own parse s message.2).
    destruct (match_own parse s message.2) as [b|] eqn:Hb; [|reflexivity].
    destruct Hin as [-> | Hin]; [congruence|].
    cbn [map] in Hnodup. apply NoDup_cons in Hnodup as [Hfresh Hnodup].
    apply IH; [exact Hnodup | | eauto].
    intros m Hm. destruct b.
    + unfold append. cbn [getparent]. rewrite lookup_insert_ne.
      * apply Hown. right. exact Hm.
      * intros Heq. apply Hfresh. rewrite Heq.
        apply list_elem_of_In. apply in_map. exact Hm.
    + apply Hown. right. exact Hm.
Qed.

(** X11. On a store that the process has reached and that no query has
    answered from, a valid query with the key date is answered with the
    status 500 when the store holds a record whose timestamp [parse] does
    not read into a day: the exception of the date comparison is not caught
    in the filter loop, whatever the other records and the other keys of the
    filter are. *)
Theorem findMessages_unreadable_timestamp (d s : gmap string json) (st : state)
        (record : element) :
  reachable fromstring dateTime_lexical parse st ->
  untouched st ->
  d !! "filter" = Some (JObject s) ->
  filter_entries s ->
  is_Some (s !! "date") ->
  In record (records st) ->
  normalized_date parse record = None ->
  (findMessages parse (JObject d) st).1 = internal_error.
Proof.
  intros Hreach Hown Hfilter Hentries [value Hvalue] Hin Hdate.
  pose proof (reachable_identities_fresh st Hreach) as (Hnodup & _).
  pose proof (reachable_records_valid st Hreach) as Hvalid.
  rewrite Forall_forall in Hvalid.
  assert (Hq : q st <> []).
  { unfold records in Hin. destruct (q st); [destruct Hin | discriminate]. }
  unfold findMessages. rewrite isQueue_nonempty by exact Hq.
  unfold findMessages_func.
  assert (Hjson : validate_json (JObject d) = "valid").
  { unfold validate_json.
    rewrite (proj2 (validate_json_schema_accepts (JObject d))); [reflexivity|].
    exists d, s. auto. }
  rewrite Hjson, String.eqb_refl.
  unfold apply_filter. rewrite Hfilter. cbn [new_Messages].
  set (st1 := {| q := q st; getparent := getparent st;
                 subelements := <[next_id st := []]> (subelements st);
                 next_id := S (next_id st) |}).
  assert (Hraised : (for_message parse s (elements (dom paths ∩ dom s)) (next_id st)
                       (q st) st1).1 = Raised).
  { apply for_message_Raised; [exact Hnodup | exact Hown |].
    unfold records in Hin. apply in_map_iff in Hin as (message & <- & Hin).
    exists message. split; [exact Hin|].
    unfold match_own. apply (all_of_Raised _ _ "date").
    - apply list_elem_of_In, elem_of_elements, elem_of_intersection. split.
      + apply elem_of_dom. eexists. reflexivity.
      + apply elem_of_dom. eauto.
    - unfold check_key. rewrite Hvalue.
      change (String.eqb "date" "date") with true. cbv iota.
      rewrite check_date_unreadable; [reflexivity | | exact Hdate].
      apply Hvalid, list_elem_of_In, in_map, Hin. }
  destruct (for_message _ _ _ _ _ _) as [result st2]. cbn [fst] in Hraised.
  subst result. reflexivity.
Qed.

(** ** Submitting a consumed message again *)

Lemma serve_app (first second : list handler) (st : state) :
  serve (first ++ second) st
  = ((serve first st).1 ++ (serve second (serve first st).2).1,
     (serve second (serve first st).2).2)%list.
Proof.
  revert st. induction first as [|h first IH]; intros st; cbn [app serve].
  - cbn [fst snd app]. destruct (serve second st); reflexivity.
  - destruct (h st) as [r st1]. rewrite IH.
    destruct (serve first st1) as [rs st2]. cbn [fst snd].
    destruct (serve second st2) as [rs' st3]. reflexivity.
Qed.

(** X12. The duplicate check looks at the records that are stored now: a
    conformant message that is not in the store is accepted, and once it
    and everything before it has been consumed, the same request body is
    accepted again and is then the only record. *)
Theorem resubmit_after_consumption (request_data : string) (M : element) (st : state) :
  fromstring request_data = Some M ->
  validate_xml dateTime_lexical M = true ->
  ~ stored M st ->
  let send_M := sendMessage fromstring dateTime_lexical request_data in
  let served := serve (send_M :: repeat getMessage (len_q st + 1) ++ [send_M]) st in
  served.1 = (accepted :: repeat removed (len_q st + 1) ++ [accepted])%list
  /\ records served.2 = [M].
Proof.
  intros Hparse Hvalid Hfresh. cbv zeta.
  cbn [serve]. rewrite (sendMessage_fresh fromstring dateTime_lexical request_data M st Hparse Hvalid Hfresh).
  set (st1 := {| q := (q st ++ [(next_id st, M)])%list; getparent := getparent st;
                 subelements := subelements st; next_id := S (next_id st) |}).
  rewrite serve_app.
  destruct (serve_getMessage (len_q st + 1) st1) as [Hanswers Hrecords].
  { unfold len_q, st1. cbn [q]. rewrite length_app. cbn. lia. }
  assert (Hempty : q (serve (repeat getMessage (len_q st + 1)) st1).2 = []).
  { apply (f_equal (@length element)) in Hrecords.
    unfold records in Hrecords. rewrite length_map, length_drop, length_map in Hrecords.
    unfold st1 in Hrecords at 2. cbn [q] in Hrecords.
    rewrite length_app in Hrecords. cbn [length] in Hrecords.
    unfold len_q in *. apply length_zero_iff_nil. lia. }
  rewrite Hanswers. cbn [fst snd serve].
  rewrite (sendMessage_fresh fromstring dateTime_lexical request_data M _ Hparse Hvalid).
  - cbn [fst snd]. split; [reflexivity|].
    unfold records. cbn [q]. rewrite Hempty. reflexivity.
  - intros (r & Hin & _). unfold records in Hin. rewrite Hempty in Hin. destruct Hin.
Qed.

End HandlerProperties.
(** * The handler properties on concrete stores *)

Lemma two_messages_reachable :
  reachable (parse_known known_documents) isodatetime isoparse two_messages.
Proof.
  exact (reachable_handle _ _ _ (POST_sendMessage (tostring second_of_may)) _
           (reachable_handle _ _ _ (POST_sendMessage (tostring first_of_may)) _
              (reachable_initial _ _ _))).
Qed.

Lemma two_messages_queried_reachable :
  reachable (parse_known known_documents) isodatetime isoparse two_messages_queried.
Proof.
  exact (reachable_handle _ _ _ (GET_findMessages (query [("to", "a")])) _
           two_messages_reachable).
Qed.

Lemma two_messages_untouched : untouched two_messages.
Proof.
  intros message Hin. vm_compute in Hin.
  destruct Hin as [<- | [<- | []]]; reflexivity.
Qed.

Lemma findMessages_invalid_filter_witness :
  q two_messages <> []
  /\ ~ filter_document (query [("subject", "x")])
  /\ find [("subject", "x")] two_messages
     = (FilterValidationError (validate_json (query [("subject", "x")])), two_messages).
Proof.
  assert (Hq : q two_messages <> []) by (vm_compute; discriminate).
  assert (Hdoc : ~ filter_document (query [("subject", "x")])).
  { intros H. apply validate_json_schema_accepts in H. vm_compute in H. discriminate. }
  split; [exact Hq|]. split; [exact Hdoc|].
  exact (proj1 (findMessages_invalid_filter isoparse (query [("subject", "x")])
                  two_messages Hq Hdoc)).
Defined.

Lemma reachable_store_invariant_witness :
  reachable (parse_known known_documents) isodatetime isoparse two_messages_queried
  /\ Forall (fun M => validate_xml isodatetime M = true) (records two_messages_queried)
  /\ NoDup (map tostring (records two_messages_queried)).
Proof.
  split; [exact two_messages_queried_reachable|].
  exact (reachable_store_invariant (parse_known known_documents) isodatetime isoparse
           two_messages_queried two_messages_queried_reachable).
Defined.


Lemma untouched_preserved_witness :
  reachable (parse_known known_documents) isodatetime isoparse two_messages
  /\ untouched two_messages
  /\ (find [("to", "nobody")] two_messages).1 = NoMatchError
  /\ untouched (find [("to", "nobody")] two_messages).2.
Proof.
  split; [exact two_messages_reachable|]. split; [exact two_messages_untouched|].
  split; [reflexivity|].
  apply (untouched_preserved (parse_known known_documents) isodatetime isoparse
           (GET_findMessages (query [("to", "nobody")])) two_messages
           two_messages_reachable two_messages_untouched).
  - vm_compute. discriminate.
  - vm_compute. discriminate.
Defined.


Lemma with_end_of_april_reachable :
  reachable (parse_known [first_of_may; end_of_april]) lexical_dateTime isoparse
            with_end_of_april.
Proof.
  exact (reachable_handle _ _ _ (POST_sendMessage (tostring end_of_april)) _
           (reachable_handle _ _ _ (POST_sendMessage (tostring first_of_may)) _
              (reachable_initial _ _ _))).
Qed.

Lemma findMessages_unreadable_timestamp_witness :
  records with_end_of_april = [first_of_may; end_of_april]
  /\ untouched with_end_of_april
  /\ normalized_date isoparse end_of_april = None
  /\ (findMessages isoparse (query [("date", "01.05.2023")]) with_end_of_april).1
     = internal_error.
Proof.
  assert (Hown : untouched with_end_of_april).
  { intros message Hin. vm_compute in Hin.
    destruct Hin as [<- | [<- | []]]; reflexivity. }
  split; [reflexivity|]. split; [exact Hown|]. split; [reflexivity|].
  apply (findMessages_unreadable_timestamp
           (parse_known [first_of_may; end_of_april]) lexical_dateTime isoparse
           {[ "filter" := JObject (filter_of [("date", "01.05.2023")]) ]}
           (filter_of [("date", "01.05.2023")]) with_end_of_april end_of_april
           with_end_of_april_reachable Hown).
  - reflexivity.
  - split; [vm_compute; lia|].
    intros key value Hlookup.
    apply (filter_of_lookup [("date", "01.05.2023")] key value) in Hlookup.
    + destruct Hlookup as (v & -> & [[= <- <-] | []]).
      split; [cbn; auto | eauto].
    + refine (bool_decide_unpack _ _); vm_compute; exact I.
  - eexists. reflexivity.
  - right. left. reflexivity.
  - reflexivity.
Defined.

Lemma resubmit_after_consumption_witness :
  parse_known known_documents (tostring hello) = Some hello
  /\ validate_xml isodatetime hello = true
  /\ ~ stored hello two_messages
  /\ (serve [send hello; getMessage; getMessage; getMessage; send hello] two_messages).1
     = [accepted; removed; removed; removed; accepted]
  /\ records
       (serve [send hello; getMessage; getMessage; getMessage; send hello] two_messages).2
     = [hello].
Proof.
  assert (Hfresh : ~ stored hello two_messages).
  { intros (r & Hin & Heq). vm_compute in Hin.
    destruct Hin as [<- | [<- | []]]; vm_compute in Heq; discriminate. }
  split; [reflexivity|]. split; [reflexivity|]. split; [exact Hfresh|].
  exact (resubmit_after_consumption (parse_known known_documents) isodatetime
           (tostring hello) hello two_messages eq_refl eq_refl Hfresh).
Defined.
